(** * dubbo-observable: the QPS counter, the meter collector and its facades

    A shallow embedding of [qps-counter.ts], [meter-collector.ts] and
    [observable.ts], and the properties of the specification that can be
    stated over it.

    Conventions of the embedding.
    - The wall clock ([new Date().getTime()]) is an integer number of
      milliseconds, passed to the methods that read it.
    - JavaScript numbers that hold counts and seconds are integers far
      below 2^53; they are embedded as [Z].
    - [QpsCounter.counter] is an object used as a map; its property keys
      are the decimal strings of integer seconds and [Number(key)] gives
      the second back, so the map is keyed by the second itself.
    - [undefined] is [None]. *)

From stdpp Require Import base numbers option list gmap sets strings.
From Stdlib Require Import ZArith Lia.

Local Open Scope Z_scope.

(** ** The timer table of the JavaScript runtime *)

Definition TimerId := nat.

Record Timers := mkTimers {
  active : gset TimerId;   (* intervals set and not yet cleared *)
  next_id : TimerId        (* the id the next [setInterval] returns *)
}.

(** [setInterval(cb, 1000)]: a fresh id, recorded as active.  The callback
    is the sweep of the object that stores the id. *)
Definition setInterval (ts : Timers) : TimerId * Timers :=
  (next_id ts,
   {| active := {[ next_id ts ]} ∪ active ts; next_id := S (next_id ts) |}).

(** [clearInterval(id)] *)
Definition clearInterval (id : TimerId) (ts : Timers) : Timers :=
  {| active := active ts ∖ {[ id ]}; next_id := next_id ts |}.

Definition no_timers : Timers := {| active := ∅; next_id := 0%nat |}.

(** Truthiness of a number ([0] is falsy) and of a property read that may
    be [undefined]. *)
Definition truthy (v : Z) : bool := negb (v =? 0).

(** [Object.keys(o)] *)
Definition keys {K : Type} `{Countable K} {V : Type} (o : gmap K V) : list K :=
  (map_to_list o).*1.

(** ** qps-counter.ts *)

Module QpsCounter.

Record t := mk {
  counter : gmap Z Z;
  intervalId : TimerId
}.

(** [Math.floor(new Date().getTime() / 1000)] *)
Definition currentSecond (now : Z) : Z := now `div` 1000.

(** The body of the interval callback installed by the constructor. *)
Definition sweep (now : Z) (this : t) : t :=
  let cs := currentSecond now in
  {| counter :=
       foldl (fun c key => if bool_decide (key < cs - 5) then delete key c else c)
             (counter this) (keys (counter this));
     intervalId := intervalId this |}.

(** [new QpsCounter()] *)
Definition new (ts : Timers) : t * Timers :=
  let '(id, ts') := setInterval ts in
  ({| counter := ∅; intervalId := id |}, ts').

Definition stop (this : t) (ts : Timers) : Timers :=
  clearInterval (intervalId this) ts.

Definition getQps (now : Z) (this : t) : Z :=
  let cs := currentSecond now - 1 in
  match counter this !! cs with
  | Some v => if truthy v then v else 0
  | None => 0
  end.

Definition increment (now : Z) (this : t) : t :=
  let cs := currentSecond now in
  match counter this !! cs with
  | Some v =>
      if truthy v
      then {| counter := <[cs := v + 1]> (counter this); intervalId := intervalId this |}
      else {| counter := <[cs := 1]> (counter this); intervalId := intervalId this |}
  | None => {| counter := <[cs := 1]> (counter this); intervalId := intervalId this |}
  end.

(** *** One counter in its environment

    The environment moves the clock, runs the interval callback while the
    interval is active, and calls the methods. *)

Record Machine := mkMachine {
  clock : Z;
  timers : Timers;
  this : t
}.

Inductive Event :=
| Advance (ms : Z)     (* the wall clock moves by [ms] milliseconds *)
| Fire                 (* the runtime runs the interval callback, if still set *)
| Increment
| GetQps
| Stop.

Definition step (m : Machine) (e : Event) : Machine :=
  match e with
  | Advance ms => {| clock := clock m + ms; timers := timers m; this := this m |}
  | Fire =>
      if bool_decide (intervalId (this m) ∈ active (timers m))
      then {| clock := clock m; timers := timers m; this := sweep (clock m) (this m) |}
      else m
  | Increment =>
      {| clock := clock m; timers := timers m; this := increment (clock m) (this m) |}
  | GetQps => m
  | Stop => {| clock := clock m; timers := stop (this m) (timers m); this := this m |}
  end.

Definition run (m : Machine) (tr : list Event) : Machine := foldl step m tr.

(** What [getQps()] returns when called on the machine. *)
Definition qps (m : Machine) : Z := getQps (clock m) (this m).

(** The machine right after [new QpsCounter()] at wall-clock time [now]. *)
Definition init (now : Z) (ts : Timers) : Machine :=
  let '(c, ts') := new ts in {| clock := now; timers := ts'; this := c |}.

(** A clock that never goes back. *)
Definition forward (e : Event) : Prop :=
  match e with Advance ms => 0 <= ms | _ => True end.

Definition monotone (tr : list Event) : Prop := Forall forward tr.

Definition is_increment (e : Event) : bool :=
  match e with Increment => true | _ => false end.

Definition increments (tr : list Event) : Z :=
  Z.of_nat (length (filter (fun e => is_increment e = true) tr)).

(** The second the machine is in. *)
Definition second (m : Machine) : Z := currentSecond (clock m).

(** The count recorded for second [k], [0] when there is no bucket. *)
Definition bucket (m : Machine) (k : Z) : Z :=
  default 0 (counter (this m) !! k).

(** Every stored count is positive. *)
Definition positive (c : gmap Z Z) : Prop := map_Forall (fun _ v => 0 < v) c.

(** Every key is at least [lo]. *)
Definition keys_from (lo : Z) (m : Machine) : Prop :=
  forall k, is_Some (counter (this m) !! k) -> lo <= k.

(** Every key is at most the current second. *)
Definition keys_upto_now (m : Machine) : Prop :=
  forall k, is_Some (counter (this m) !! k) -> k <= second m.

(** The wall-clock times at which the interval callback runs in a trace. *)
Fixpoint fired_at (m : Machine) (tr : list Event) : list Z :=
  match tr with
  | [] => []
  | e :: tr' =>
      match e with
      | Fire =>
          if bool_decide (intervalId (this m) ∈ active (timers m))
          then clock m :: fired_at (step m e) tr'
          else fired_at (step m e) tr'
      | _ => fired_at (step m e) tr'
      end
  end.

(** [n] seconds pass, the interval callback running at the end of each. *)
Definition ticks (n : nat) : list Event :=
  mjoin (replicate n [Advance 1000; Fire]).

End QpsCounter.

(** ** The metrics backend and the world of the collectors *)

Definition Handle := nat.   (* identity of a Counter or ObservableCounter object *)
Definition Loc := nat.      (* address of a QpsCounter object *)

Inductive ValueType := INT | DOUBLE.

Record MetricOptions := mkMetricOptions {
  description : string;
  valueType : ValueType
}.

Definition Attributes := list (string * string).

(** The only callback the collectors register:
    [(observableResult) => { observableResult.observe(qpsCounter.getQps()) }],
    a closure over the QpsCounter at address [l]. *)
Inductive Callback := ObserveQps (l : Loc).

(** Calls received by the metrics backend, oldest first. *)
Inductive BackendCall :=
| CreateCounter (name : string) (options : option MetricOptions)
| CreateObservableCounter (name : string) (options : option MetricOptions)
| Add (h : Handle) (delta : Z) (attributes : option Attributes)
| AddCallback (h : Handle) (cb : Callback).

(** A [Meter] of the backend.  What a create call returns is up to the
    backend: a function of the calls it has received so far and of the
    arguments; [None] is "no handle". *)
Record Meter := mkMeter {
  createCounter :
    list BackendCall -> string -> option MetricOptions -> option Handle;
  createObservableCounter :
    list BackendCall -> string -> option MetricOptions -> option Handle
}.

(** The global [metrics] API: [metrics.getMeter(name, version, options)]. *)
Definition Metrics := string -> string -> option Meter.

Record World := mkWorld {
  now : Z;                       (* wall clock, in milliseconds *)
  timers : Timers;
  heap : list QpsCounter.t;      (* the QpsCounter objects, by address *)
  backend : list BackendCall
}.

(** ** A state monad for the methods

    A method runs on its receiver [this : O] and on the [World] around it;
    it returns a result and the updated pair. *)

Definition St (S A : Type) : Type := S -> A * S.

#[global] Instance St_ret {S} : MRet (St S) := fun A a s => (a, s).
#[global] Instance St_bind {S} : MBind (St S) :=
  fun A B f m s => let '(a, s') := m s in f a s'.

Definition M (O A : Type) : Type := St (O * World) A.

Definition get_this {O} : M O O := fun s => (s.1, s).
Definition set_this {O} (o : O) : M O unit := fun s => (tt, (o, s.2)).

(** An action on the world alone, run inside a method. *)
Definition in_world {O A} (act : St World A) : M O A :=
  fun s => let '(a, w) := act s.2 in (a, (s.1, w)).

(** [h?.method(...)]: nothing happens, and the arguments are not
    evaluated, when [h] is [undefined]. *)
Definition opt_call {O A} (h : option A) (f : A -> M O unit) : M O unit :=
  match h with
  | Some a => f a
  | None => mret tt
  end.

(** A call that reaches the backend is appended to its log. *)
Definition backend_call (c : BackendCall) : St World unit :=
  fun w => (tt, {| now := now w; timers := timers w; heap := heap w;
                   backend := backend w ++ [c] |}).

(** The world after the backend has received the call [c]. *)
Definition told (c : BackendCall) (w : World) : World := (backend_call c w).2.

(** The world after the call [mk h] on the handle [h], if there is one. *)
Definition told_on (h : option Handle) (mk : Handle -> BackendCall) (w : World) : World :=
  match h with
  | Some h' => told (mk h') w
  | None => w
  end.

(** A create call: the backend answers from what it has seen so far. *)
Definition backend_create (c : BackendCall)
    (answer : list BackendCall -> option Handle) : St World (option Handle) :=
  fun w => (answer (backend w), told c w).

(** Run a method of the superclass part [sup] of the receiver. *)
Definition zoom {O P A} (sup : O -> P) (set_sup : P -> O -> O) (m : M P A) : M O A :=
  fun s =>
    let '(a, (p, w)) := m (sup s.1, s.2) in
    (a, (set_sup p s.1, w)).

(** *** QpsCounter objects in the heap *)

Definition new_QpsCounter : St World Loc :=
  fun w =>
    let '(c, ts) := QpsCounter.new (timers w) in
    (length (heap w),
     {| now := now w; timers := ts; heap := heap w ++ [c]; backend := backend w |}).

Definition qps_increment (l : Loc) : St World unit :=
  fun w => (tt, {| now := now w; timers := timers w;
                   heap := alter (QpsCounter.increment (now w)) l (heap w);
                   backend := backend w |}).

Definition qps_stop (l : Loc) : St World unit :=
  fun w =>
    match heap w !! l with
    | Some c => (tt, {| now := now w; timers := QpsCounter.stop c (timers w);
                        heap := heap w; backend := backend w |})
    | None => (tt, w)
    end.

(** The wall clock moves by [ms] milliseconds. *)
Definition advance (ms : Z) : St World unit :=
  fun w => (tt, {| now := now w + ms; timers := timers w; heap := heap w;
                   backend := backend w |}).

(** The runtime runs the interval callback of the counter at [l], if its
    interval is still set. *)
Definition fire (l : Loc) : St World unit :=
  fun w =>
    match heap w !! l with
    | Some c =>
        if bool_decide (QpsCounter.intervalId c ∈ active (timers w))
        then (tt, {| now := now w; timers := timers w;
                     heap := <[l := QpsCounter.sweep (now w) c]> (heap w);
                     backend := backend w |})
        else (tt, w)
    | None => (tt, w)
    end.

(** ** meter-collector.ts: [MeterCollector] *)

Record MeterCollectorOptions := mkMeterCollectorOptions {
  name : option string;
  version : option string
}.

(** [s || d] on an optional string: [undefined] and the empty string are
    falsy. *)
Definition or_string (s : option string) (d : string) : string :=
  match s with
  | Some EmptyString | None => d
  | Some s' => s'
  end.

Module MeterCollector.

Record t := mk {
  meter : option Meter;
  meter_cache : option (gmap string Handle)
}.

Definition new (metrics : Metrics) (options : option MeterCollectorOptions) : t :=
  {| meter := metrics (or_string (options ≫= name) "dubbo-js")
                      (or_string (options ≫= version) "0.0.1");
     meter_cache := Some ∅ |}.

(** [creator] is a closure over [this]; it reads the receiver and calls
    the backend. *)
Definition __getCachedMeter (cacheKey : string)
    (creator : t -> St World (option Handle)) : M t (option Handle) :=
  this ← get_this;
  match meter this, meter_cache this with
  | Some _, Some cache =>
      match cache !! cacheKey with
      | Some h => mret (Some h)
      | None =>
          made ← in_world (creator this);
          match made with
          | Some h =>
              _ ← set_this {| meter := meter this;
                              meter_cache := Some (<[cacheKey := h]> cache) |};
              mret (Some h)
          | None => mret None
          end
      end
  | _, _ => mret None
  end.

Definition getCounter (name : string) (options : option MetricOptions)
  : M t (option Handle) :=
  let cacheKey := "counter-" +:+ name in
  __getCachedMeter cacheKey
    (fun this =>
       match meter this with
       | Some mt =>
           backend_create (CreateCounter name options)
             (fun log => createCounter mt log name options)
       | None => mret None
       end).

Definition getObservableCounter (name : string) (options : option MetricOptions)
  : M t (option Handle) :=
  let cacheKey := "observable-counter-" +:+ name in
  __getCachedMeter cacheKey
    (fun this =>
       match meter this with
       | Some mt =>
           backend_create (CreateObservableCounter name options)
             (fun log => createObservableCounter mt log name options)
       | None => mret None
       end).

Definition shutdown : M t unit :=
  this ← get_this;
  match meter_cache this with
  | Some cache =>
      set_this {| meter := meter this;
                  meter_cache :=
                    Some (foldl (fun c key => delete key c) cache (keys cache)) |}
  | None => mret tt
  end.

(** *** A collector in use: a sequence of getter calls *)

Inductive Get :=
| GetCounter (name : string) (options : option MetricOptions)
| GetObservableCounter (name : string) (options : option MetricOptions).

Definition get (g : Get) : M t (option Handle) :=
  match g with
  | GetCounter n o => getCounter n o
  | GetObservableCounter n o => getObservableCounter n o
  end.

Definition gets (s : t * World) (gs : list Get) : t * World :=
  foldl (fun s g => (get g s).2) s gs.

Definition creates_counter (n : string) (c : BackendCall) : bool :=
  match c with
  | CreateCounter n' _ => bool_decide (n' = n)
  | _ => false
  end.

Definition creates_observable (n : string) (c : BackendCall) : bool :=
  match c with
  | CreateObservableCounter n' _ => bool_decide (n' = n)
  | _ => false
  end.

(** The getters reach the backend with create calls only: everything
    else in the world [w'] is as in [w]. *)
Definition only_creates (w w' : World) : Prop :=
  now w' = now w /\ timers w' = timers w /\ heap w' = heap w /\
  filter (fun c => match c with AddCallback _ _ => true | _ => false end = true)
         (backend w')
  = filter (fun c => match c with AddCallback _ _ => true | _ => false end = true)
           (backend w).

(** The handle [h] is cached under [key] in a collector with a meter. *)
Definition cached (key : string) (h : Handle) (s : t * World) : Prop :=
  exists mt cache,
    meter s.1 = Some mt /\ meter_cache s.1 = Some cache /\ cache !! key = Some h.

(** How often the backend was asked to create the counter [n], and the
    observable counter [n]. *)
Definition counter_creations (n : string) (log : list BackendCall) : nat :=
  length (filter (fun c => creates_counter n c = true) log).

Definition observable_creations (n : string) (log : list BackendCall) : nat :=
  length (filter (fun c => creates_observable n c = true) log).

End MeterCollector.

(** ** meter-collector.ts: [ProviderMeterCollector] and [ConsumerMeterCollector]

    The two subclasses are the same text up to the metric names and
    descriptions and the prefix of the member names; [Facade] is that text,
    with the role as a parameter. *)

Inductive Role := Provider | Consumer.

Definition role_word (r : Role) : string :=
  match r with Provider => "provider" | Consumer => "consumer" end.

Definition requests_total (r : Role) : string :=
  "dubbo_" +:+ role_word r +:+ "_requests_total".
Definition requests_succeed_total (r : Role) : string :=
  "dubbo_" +:+ role_word r +:+ "_requests_succeed_total".
Definition requests_failed_total (r : Role) : string :=
  "dubbo_" +:+ role_word r +:+ "_requests_failed_total".
Definition qps_total (r : Role) : string :=
  "dubbo_" +:+ role_word r +:+ "_qps_total".

Definition int_metric (d : string) : option MetricOptions :=
  Some {| description := d; valueType := INT |}.

Module Facade.

Record t := mk {
  super : MeterCollector.t;
  requestTotal : option Handle;
  requestSucceedTotal : option Handle;
  requestFailedTotal : option Handle;
  requestQps : option Handle;
  qpsCounter : option Loc
}.

Definition set_super (p : MeterCollector.t) (this : t) : t :=
  {| super := p; requestTotal := requestTotal this;
     requestSucceedTotal := requestSucceedTotal this;
     requestFailedTotal := requestFailedTotal this;
     requestQps := requestQps this; qpsCounter := qpsCounter this |}.

Definition set_qpsCounter (q : option Loc) : M t unit :=
  this ← get_this;
  set_this {| super := super this; requestTotal := requestTotal this;
              requestSucceedTotal := requestSucceedTotal this;
              requestFailedTotal := requestFailedTotal this;
              requestQps := requestQps this; qpsCounter := q |}.

(** The constructor: [super(options)], then the four handles. *)
Definition new (r : Role) (metrics : Metrics) (options : option MeterCollectorOptions)
  : St World t :=
  fun w =>
    let registered : M MeterCollector.t t :=
      total ← MeterCollector.getCounter (requests_total r)
        (int_metric ("The total number of received requests by the " +:+ role_word r));
      succeed ← MeterCollector.getCounter (requests_succeed_total r)
        (int_metric ("The total number of successfully received requests by the "
                     +:+ role_word r));
      failed ← MeterCollector.getCounter (requests_failed_total r)
        (int_metric ("The total number of unsuccessfully received requests by the "
                     +:+ role_word r));
      qps ← MeterCollector.getObservableCounter (qps_total r)
        (int_metric ("The number of requests received by the " +:+ role_word r
                     +:+ " per second"));
      base ← get_this;
      mret {| super := base; requestTotal := total; requestSucceedTotal := succeed;
              requestFailedTotal := failed; requestQps := qps; qpsCounter := None |} in
    let '(this, (_, w')) := registered (MeterCollector.new metrics options, w) in
    (this, w').

(** [providerRequest] / [consumerRequest] *)
Definition request (attributes : option Attributes) : M t unit :=
  this ← get_this;
  _ ← opt_call (requestTotal this)
        (fun h => in_world (backend_call (Add h 1 attributes)));
  _ ← match qpsCounter this with
      | None =>
          qpsCounter ← in_world new_QpsCounter;
          _ ← set_qpsCounter (Some qpsCounter);
          opt_call (requestQps this)
            (fun h => in_world (backend_call (AddCallback h (ObserveQps qpsCounter))))
      | Some _ => mret tt
      end;
  this ← get_this;
  opt_call (qpsCounter this) (fun l => in_world (qps_increment l)).

(** [providerRequestSucceed] / [consumerRequestSucceed] *)
Definition requestSucceed (attributes : option Attributes) : M t unit :=
  this ← get_this;
  opt_call (requestSucceedTotal this)
    (fun h => in_world (backend_call (Add h 1 attributes))).

(** [providerRequestFailed] / [consumerRequestFailed] *)
Definition requestFailed (attributes : option Attributes) : M t unit :=
  this ← get_this;
  opt_call (requestFailedTotal this)
    (fun h => in_world (backend_call (Add h 1 attributes))).

Definition shutdown : M t unit :=
  _ ← zoom super set_super MeterCollector.shutdown;
  this ← get_this;
  opt_call (qpsCounter this) (fun l => in_world (qps_stop l)).

(** *** A facade in its environment *)

Inductive Call :=
| Request (attributes : option Attributes)
| RequestSucceed (attributes : option Attributes)
| RequestFailed (attributes : option Attributes)
| Shutdown
| Advance (ms : Z)   (* the wall clock moves *)
| Fire (l : Loc).    (* the runtime runs the interval callback of the counter at [l] *)

Definition call (c : Call) : M t unit :=
  match c with
  | Request a => request a
  | RequestSucceed a => requestSucceed a
  | RequestFailed a => requestFailed a
  | Shutdown => shutdown
  | Advance ms => in_world (advance ms)
  | Fire l => in_world (fire l)
  end.

Definition run (s : t * World) (tr : list Call) : t * World :=
  foldl (fun s c => (call c s).2) s tr.

Definition is_request (c : Call) : bool :=
  match c with Request _ => true | _ => false end.

(** Whether the request event method is invoked in the trace. *)
Definition requested (tr : list Call) : bool := existsb is_request tr.

(** The number of QpsCounter objects constructed so far. *)
Definition constructed (w : World) : nat := length (heap w).

Definition is_addCallback (c : BackendCall) : bool :=
  match c with AddCallback _ _ => true | _ => false end.

(** The callbacks registered with the backend so far, oldest first. *)
Definition callbacks (w : World) : list BackendCall :=
  filter (fun c => is_addCallback c = true) (backend w).

Definition registered (w : World) : nat := length (callbacks w).

(** What the callbacks among [calls] report for the observable counter
    [h] when the backend polls it in the world [w]: one value per
    callback registered on [h]. *)
Definition observe (h : Handle) (w : World) (calls : list BackendCall) : list Z :=
  omap (fun c =>
          match c with
          | AddCallback h' (ObserveQps l) =>
              if bool_decide (h' = h)
              then QpsCounter.getQps (now w) <$> heap w !! l
              else None
          | _ => None
          end) calls.

Definition poll (h : Handle) (w : World) : list Z := observe h w (backend w).

(** The four handles taken by the constructor. *)
Definition handles (this : t) : list (option Handle) :=
  [requestTotal this; requestSucceedTotal this; requestFailedTotal this;
   requestQps this].

(** The callback a facade with the handles of [f0] registers for the
    counter at [l]. *)
Definition own_callback (f0 : t) (l : Loc) : list BackendCall :=
  match requestQps f0 with
  | Some h => [AddCallback h (ObserveQps l)]
  | None => []
  end.

(** What a facade built as [f0] in the world [w1] has constructed and
    registered, [b] telling whether its request method has been invoked:
    the handles are those of [f0]; one counter, at the first free
    address, and its callback, exist when [b] holds and none otherwise. *)
Definition settled (f0 : t) (w1 : World) (b : bool) (s : t * World) : Prop :=
  handles s.1 = handles f0 /\
  length (heap s.2) = (length (heap w1) + (if b then 1 else 0))%nat /\
  qpsCounter s.1 = (if b then Some (length (heap w1)) else None) /\
  callbacks s.2 = callbacks w1 ++ (if b then own_callback f0 (length (heap w1)) else []).

Definition no_handles : list (option Handle) := [None; None; None; None].

End Facade.

Module ProviderMeterCollector.
Definition new := Facade.new Provider.
Definition providerRequest := Facade.request.
Definition providerRequestSucceed := Facade.requestSucceed.
Definition providerRequestFailed := Facade.requestFailed.
Definition shutdown := Facade.shutdown.
End ProviderMeterCollector.

Module ConsumerMeterCollector.
Definition new := Facade.new Consumer.
Definition consumerRequest := Facade.request.
Definition consumerRequestSucceed := Facade.requestSucceed.
Definition consumerRequestFailed := Facade.requestFailed.
Definition shutdown := Facade.shutdown.
End ConsumerMeterCollector.

(** A world with nothing in it, at wall-clock time [t]. *)
Definition empty_world (t : Z) : World :=
  {| now := t; timers := no_timers; heap := []; backend := [] |}.

(** A backend that hands out a new object for every create call. *)
Definition fresh_meter : Meter :=
  {| createCounter := fun log _ _ => Some (length log);
     createObservableCounter := fun log _ _ => Some (length log) |}.

(** A backend whose create calls yield no handle. *)
Definition barren_meter : Meter :=
  {| createCounter := fun _ _ _ => None;
     createObservableCounter := fun _ _ _ => None |}.

(** A backend whose first create call yields no handle. *)
Definition flaky_meter : Meter :=
  {| createCounter := fun log _ _ =>
       match log with [] => None | _ => Some (length log) end;
     createObservableCounter := fun log _ _ =>
       match log with [] => None | _ => Some (length log) end |}.

Definition with_meter (mt : Meter) : Metrics := fun _ _ => Some mt.
Definition headless : Metrics := fun _ _ => None.

(** ** observable.ts *)

Module Observable.

Inductive JsValue :=
| Undefined
| Null
| Str (s : string)
| Bool (b : bool)
| Num (n : Z)
| Obj (id : nat).      (* any other object, by identity *)

(** An object literal: its own enumerable properties.  A property that is
    present may hold [undefined]. *)
Abbreviation JsObject := (gmap string JsValue).

Record ObservableOptions := mkObservableOptions {
  enable : option bool;
  configuration : option JsObject
}.

(** [o?.p] *)
Definition read (o : option JsObject) (p : string) : JsValue :=
  match o with
  | Some props => default Undefined (props !! p)
  | None => Undefined
  end.

(** [v ?? d] *)
Definition nullish_or (v d : JsValue) : JsValue :=
  match v with
  | Undefined | Null => d
  | _ => v
  end.

(** [{ ...target, ...src }]: every own property of [src] is written over
    [target]; spreading [undefined] writes nothing. *)
Definition spread (src : option JsObject) (target : JsObject) : JsObject :=
  match src with
  | Some props =>
      foldl (fun o kv => <[kv.1 := kv.2]> o) target (map_to_list props)
  | None => target
  end.

Definition validateOpenTelemetryOption (options : option ObservableOptions) : JsObject :=
  spread (options ≫= configuration)
    {[ "serviceName" :=
         nullish_or (read (options ≫= configuration) "serviceName") (Str "Dubbo") ]}.

(** The service name of a configuration, as [config.serviceName] reads it. *)
Definition serviceName (config : JsObject) : JsValue :=
  read (Some config) "serviceName".

End Observable.

(** ** Histories of a counter and of a facade *)

(** The number of [increment()] calls of the trace that are made while the
    machine is in second [k]. *)
Fixpoint increments_in (k : Z) (m : QpsCounter.Machine) (tr : list QpsCounter.Event) : Z :=
  match tr with
  | [] => 0
  | e :: tr' =>
      (if QpsCounter.is_increment e && bool_decide (k = QpsCounter.second m)
       then 1 else 0)
      + increments_in k (QpsCounter.step m e) tr'
  end.

(** What a call on a facade means for the QpsCounter at address [l]: the
    request method increments it, [shutdown()] stops it, the clock is
    shared, and only its own interval sweeps it. *)
Definition counter_event (l : Loc) (c : Facade.Call) : list QpsCounter.Event :=
  match c with
  | Facade.Request _ => [QpsCounter.Increment]
  | Facade.RequestSucceed _ | Facade.RequestFailed _ => []
  | Facade.Shutdown => [QpsCounter.Stop]
  | Facade.Advance ms => [QpsCounter.Advance ms]
  | Facade.Fire l' => if bool_decide (l' = l) then [QpsCounter.Fire] else []
  end.

(** The counter at address [l], with the clock and the timers of its world. *)
Definition machine_at (l : Loc) (w : World) : option QpsCounter.Machine :=
  c ← heap w !! l;
  Some {| QpsCounter.clock := now w; QpsCounter.timers := timers w; QpsCounter.this := c |}.

(** The four create calls of a facade constructor, in the order it makes
    them. *)
Definition registrations (r : Role) : list BackendCall :=
  [CreateCounter (requests_total r)
     (int_metric ("The total number of received requests by the " +:+ role_word r));
   CreateCounter (requests_succeed_total r)
     (int_metric ("The total number of successfully received requests by the "
                  +:+ role_word r));
   CreateCounter (requests_failed_total r)
     (int_metric ("The total number of unsuccessfully received requests by the "
                  +:+ role_word r));
   CreateObservableCounter (qps_total r)
     (int_metric ("The number of requests received by the " +:+ role_word r
                  +:+ " per second"))].

(** The answer of the meter [mt] to a create call, given what the backend
    has seen. *)
Definition answer (mt : Meter) (log : list BackendCall) (c : BackendCall) : option Handle :=
  match c with
  | CreateCounter n o => createCounter mt log n o
  | CreateObservableCounter n o => createObservableCounter mt log n o
  | _ => None
  end.

(** The answers to a sequence of create calls made one after the other. *)
Fixpoint answers (mt : Meter) (log : list BackendCall) (cs : list BackendCall)
  : list (option Handle) :=
  match cs with
  | [] => []
  | c :: cs' => answer mt log c :: answers mt (log ++ [c]) cs'
  end.

(** The cache key and the create call of a getter call. *)
Definition key_of (g : MeterCollector.Get) : string :=
  match g with
  | MeterCollector.GetCounter n _ => "counter-" +:+ n
  | MeterCollector.GetObservableCounter n _ => "observable-counter-" +:+ n
  end.

Definition call_of (g : MeterCollector.Get) : BackendCall :=
  match g with
  | MeterCollector.GetCounter n o => CreateCounter n o
  | MeterCollector.GetObservableCounter n o => CreateObservableCounter n o
  end.

(** *** What the events of a facade send to the backend *)

Definition is_add (c : BackendCall) : bool :=
  match c with Add _ _ _ => true | _ => false end.

(** The [add] calls the backend has received, oldest first. *)
Definition adds (w : World) : list BackendCall :=
  filter (fun c => is_add c = true) (backend w).

Definition add_on (h : option Handle) (a : option Attributes) : list BackendCall :=
  match h with
  | Some h' => [Add h' 1 a]
  | None => []
  end.

(** The [add] call an event method makes, on the handle the facade holds
    for it. *)
Definition forwarded (f : Facade.t) (c : Facade.Call) : list BackendCall :=
  match c with
  | Facade.Request a => add_on (Facade.requestTotal f) a
  | Facade.RequestSucceed a => add_on (Facade.requestSucceedTotal f) a
  | Facade.RequestFailed a => add_on (Facade.requestFailedTotal f) a
  | _ => []
  end.

(** *** Requests per second *)

(** By how much a call moves the wall clock. *)
Definition elapsed (c : Facade.Call) : Z :=
  match c with Facade.Advance ms => ms | _ => 0 end.

(** The number of request events of the trace that are made during second
    [k], the trace starting at wall-clock time [t]. *)
Fixpoint requests_in (k : Z) (t : Z) (tr : list Facade.Call) : Z :=
  match tr with
  | [] => 0
  | c :: tr' =>
      (if Facade.is_request c && bool_decide (k = QpsCounter.currentSecond t)
       then 1 else 0)
      + requests_in k (t + elapsed c) tr'
  end.

(** The clock does not go back. *)
Definition forward_call (c : Facade.Call) : Prop := 0 <= elapsed c.

(** The count the facade's own counter holds for second [k]; [0] while the
    facade has no counter. *)
Definition recorded (s : Facade.t * World) (k : Z) : Z :=
  match Facade.qpsCounter s.1 ≫= (fun l => heap s.2 !! l) with
  | Some c => default 0 (QpsCounter.counter c !! k)
  | None => 0
  end.

(** The counter a facade refers to exists. *)
Definition owns_counter (s : Facade.t * World) : Prop :=
  match Facade.qpsCounter s.1 with
  | Some l => (l < length (heap s.2))%nat
  | None => True
  end.

(** *** Several counters in one world *)

(** Every QpsCounter of the heap has an interval id of its own, below the
    next id the runtime hands out. *)
Definition intervals_distinct (w : World) : Prop :=
  (forall l c, heap w !! l = Some c ->
     (QpsCounter.intervalId c < next_id (timers w))%nat) /\
  (forall l1 l2 c1 c2, heap w !! l1 = Some c1 -> heap w !! l2 = Some c2 ->
     QpsCounter.intervalId c1 = QpsCounter.intervalId c2 -> l1 = l2).

(** The calls that are methods of the facade (the others are the
    environment's). *)
Definition is_method (c : Facade.Call) : bool :=
  match c with
  | Facade.Advance _ | Facade.Fire _ => false
  | _ => true
  end.

(** * Properties *)

Section QpsCounterFacts.
Import QpsCounter.

Lemma foldl_delete_below (b : Z) (l : list Z) (c : gmap Z Z) (k : Z) :
  foldl (fun c key => if bool_decide (key < b) then delete key c else c) c l !! k =
  if bool_decide (k < b) && bool_decide (k ∈ l) then None else c !! k.
Proof.
  revert c. induction l as [|x l IH]; intros c; simpl.
  - rewrite andb_false_r. done.
  - rewrite IH.
    destruct (decide (k = x)) as [->|Hne].
    + rewrite (bool_decide_eq_true_2 (x ∈ x :: l)) by apply list_elem_of_here.
      rewrite andb_true_r.
      destruct (bool_decide (x < b)); simpl; [|done].
      rewrite lookup_delete_eq. by destruct (bool_decide (x ∈ l)).
    + assert (bool_decide (k ∈ x :: l) = bool_decide (k ∈ l)) as ->.
      { apply bool_decide_ext. rewrite elem_of_cons. split; [intros [?|?]; [congruence|done]|by right]. }
      destruct (bool_decide (k < b) && bool_decide (k ∈ l)); [done|].
      destruct (bool_decide (x < b)); [by rewrite lookup_delete_ne|done].
Qed.

Lemma elem_of_keys (c : gmap Z Z) (k : Z) : k ∈ keys c ↔ is_Some (c !! k).
Proof.
  unfold keys. rewrite list_elem_of_fmap. split.
  - intros [[k' v] [-> Hin]]. apply elem_of_map_to_list in Hin. by exists v.
  - intros [v Hv]. exists (k, v). split; [done|]. by apply elem_of_map_to_list.
Qed.

Lemma sweep_lookup (now : Z) (this : t) (k : Z) :
  counter (sweep now this) !! k =
  if bool_decide (k < currentSecond now - 5) then None else counter this !! k.
Proof.
  unfold sweep; simpl. rewrite foldl_delete_below.
  case_bool_decide; simpl; [|done].
  case_bool_decide as Hin; [done|].
  rewrite elem_of_keys in Hin. by apply eq_None_not_Some.
Qed.

Lemma increment_lookup (now : Z) (this : t) (k : Z) :
  counter (increment now this) !! k =
  if decide (k = currentSecond now)
  then Some (default 0 (counter this !! currentSecond now) + 1)
  else counter this !! k.
Proof.
  unfold increment.
  destruct (counter this !! currentSecond now) as [v|] eqn:Hv; simpl.
  - unfold truthy. destruct (Z.eqb_spec v 0) as [->|Hne]; simpl;
      case_decide; subst; by rewrite ?lookup_insert_eq, ?lookup_insert_ne.
  - case_decide; subst; by rewrite ?lookup_insert_eq, ?lookup_insert_ne.
Qed.

Lemma getQps_bucket (now : Z) (this : t) :
  getQps now this = default 0 (counter this !! (currentSecond now - 1)).
Proof.
  unfold getQps. destruct (counter this !! _) as [v|]; simpl; [|done].
  unfold truthy. by destruct (Z.eqb_spec v 0) as [->|].
Qed.

#[local] Arguments sweep : simpl never.
#[local] Arguments increment : simpl never.

Lemma qps_bucket (m : Machine) : qps m = bucket m (second m - 1).
Proof. apply getQps_bucket. Qed.

Lemma currentSecond_mono (a b : Z) : a <= b -> currentSecond a <= currentSecond b.
Proof. intros. unfold currentSecond. apply Z.div_le_mono; lia. Qed.

Lemma step_second_mono (m : Machine) (e : Event) :
  forward e -> second m <= second (step m e).
Proof.
  destruct e; cbn; intros He; unfold second; cbn; try lia.
  - apply currentSecond_mono. lia.
  - case_bool_decide; cbn; lia.
Qed.

Lemma run_second_mono (tr : list Event) (m : Machine) :
  monotone tr -> second m <= second (run m tr).
Proof.
  revert m. induction tr as [|e tr IH]; intros m Hm; cbn; [lia|].
  inversion Hm; subst.
  etrans; [by apply step_second_mono|]. by apply IH.
Qed.

Lemma run_app (m : Machine) (tr1 tr2 : list Event) :
  run m (tr1 ++ tr2) = run (run m tr1) tr2.
Proof. apply foldl_app. Qed.

(** *** Every stored count is positive *)

Lemma positive_lookup (c : gmap Z Z) :
  positive c <-> forall k v, c !! k = Some v -> 0 < v.
Proof. apply map_Forall_lookup. Qed.

Lemma increment_positive (now : Z) (o : t) :
  positive (counter o) -> positive (counter (increment now o)).
Proof.
  rewrite !positive_lookup. intros Hpos k v. rewrite increment_lookup.
  case_decide; [|by apply Hpos].
  intros [= <-]. destruct (counter o !! currentSecond now) as [v0|] eqn:Hv0; cbn; [|lia].
  apply Hpos in Hv0. lia.
Qed.

Lemma sweep_positive (now : Z) (o : t) :
  positive (counter o) -> positive (counter (sweep now o)).
Proof.
  rewrite !positive_lookup. intros Hpos k v. rewrite sweep_lookup.
  case_bool_decide; [done|]. apply Hpos.
Qed.

Lemma step_positive (m : Machine) (e : Event) :
  positive (counter (this m)) -> positive (counter (this (step m e))).
Proof.
  intros Hm. destruct e; cbn; try done.
  - case_bool_decide; cbn; [by apply sweep_positive|done].
  - by apply increment_positive.
Qed.

Lemma run_positive (tr : list Event) (m : Machine) :
  positive (counter (this m)) -> positive (counter (this (run m tr))).
Proof.
  revert m. induction tr as [|e tr IH]; intros m Hm; cbn; [done|].
  apply IH. by apply step_positive.
Qed.

Lemma init_counter (t0 : Z) (ts : Timers) : counter (this (init t0 ts)) = ∅.
Proof. done. Qed.

(** *** The window of keys *)

Lemma step_keys_upto_now (m : Machine) (e : Event) :
  forward e -> keys_upto_now m -> keys_upto_now (step m e).
Proof.
  intros He Hm k. pose proof (step_second_mono m e He) as Hle.
  destruct e; cbn in *.
  - intros Hk. apply Hm in Hk. lia.
  - case_bool_decide; [|apply Hm].
    unfold second; cbn. rewrite sweep_lookup.
    case_bool_decide; [by intros [? [=]]|]. apply Hm.
  - unfold second; cbn. rewrite increment_lookup.
    case_decide; [subst; lia|]. apply Hm.
  - apply Hm.
  - apply Hm.
Qed.

Lemma run_keys_upto_now (tr : list Event) (m : Machine) :
  monotone tr -> keys_upto_now m -> keys_upto_now (run m tr).
Proof.
  revert m. induction tr as [|e tr IH]; intros m Htr Hm; cbn; [done|].
  inversion Htr; subst. apply IH; [done|]. by apply step_keys_upto_now.
Qed.

Lemma step_keys_from (lo : Z) (m : Machine) (e : Event) :
  lo <= second m -> keys_from lo m -> keys_from lo (step m e).
Proof.
  intros Hlo Hm k. destruct e; cbn.
  - apply Hm.
  - case_bool_decide; [|apply Hm]. cbn. rewrite sweep_lookup.
    case_bool_decide; [by intros [? [=]]|]. apply Hm.
  - rewrite increment_lookup. case_decide; [subst; unfold second in Hlo; lia|]. apply Hm.
  - apply Hm.
  - apply Hm.
Qed.

Lemma run_keys_from (lo : Z) (tr : list Event) (m : Machine) :
  monotone tr -> lo <= second m -> keys_from lo m -> keys_from lo (run m tr).
Proof.
  revert m. induction tr as [|e tr IH]; intros m Htr Hlo Hm; cbn; [done|].
  inversion Htr; subst. apply IH; [done| |by apply step_keys_from].
  etrans; [done|]. by apply step_second_mono.
Qed.

(** *** Counts per second *)

Lemma increments_cons (e : Event) (tr : list Event) :
  increments (e :: tr) = (if is_increment e then 1 else 0) + increments tr.
Proof.
  unfold increments. rewrite filter_cons.
  destruct (is_increment e); case_decide; try done.
  rewrite length_cons. lia.
Qed.

Lemma increments_nonneg (tr : list Event) : 0 <= increments tr.
Proof. unfold increments. lia. Qed.

Lemma step_bucket (m : Machine) (e : Event) (k : Z) :
  second (step m e) <= k + 5 ->
  bucket (step m e) k =
  bucket m k + (if is_increment e && bool_decide (k = second m) then 1 else 0).
Proof.
  unfold bucket, second. destruct e; cbn; intros Hk; try lia.
  - case_bool_decide; cbn in *; [|lia].
    rewrite sweep_lookup. rewrite bool_decide_eq_false_2 by lia. lia.
  - rewrite increment_lookup. case_decide as Heq.
    + subst k. rewrite bool_decide_eq_true_2 by done. cbn. lia.
    + rewrite bool_decide_eq_false_2 by done. lia.
Qed.

Lemma run_cons (m : Machine) (e : Event) (tr : list Event) :
  run m (e :: tr) = run (step m e) tr.
Proof. done. Qed.

Lemma run_bucket_same_second (tr : list Event) (m : Machine) (k : Z) :
  monotone tr -> second (run m tr) = second m -> second m <= k + 5 ->
  bucket (run m tr) k =
  bucket m k + (if bool_decide (k = second m) then increments tr else 0).
Proof.
  revert m. induction tr as [|e tr IH]; intros m Htr Hsame Hk.
  - unfold increments; cbn. case_bool_decide; lia.
  - inversion Htr as [|?? He Htr']; subst. rewrite run_cons in *.
    pose proof (step_second_mono m e He) as H1.
    pose proof (run_second_mono tr (step m e) Htr') as H2.
    assert (second (step m e) = second m) as Hs by lia.
    rewrite IH by (done || lia). rewrite step_bucket by lia.
    rewrite Hs, increments_cons.
    destruct (is_increment e); case_bool_decide; cbn [andb]; lia.
Qed.

Lemma run_bucket_quiet (tr : list Event) (m : Machine) (k : Z) :
  monotone tr -> increments tr = 0 -> second (run m tr) <= k + 5 ->
  bucket (run m tr) k = bucket m k.
Proof.
  revert m. induction tr as [|e tr IH]; intros m Htr Hq Hk; [done|].
  inversion Htr as [|?? He Htr']; subst. rewrite run_cons in *.
  rewrite increments_cons in Hq. pose proof (increments_nonneg tr).
  pose proof (run_second_mono tr (step m e) Htr') as H2.
  assert (is_increment e = false) as Hni by (destruct (is_increment e); [lia|done]).
  rewrite Hni in Hq.
  rewrite IH by (done || lia).
  rewrite step_bucket by lia. rewrite Hni. cbn [andb]. lia.
Qed.

Lemma prefix_monotone (pre tr : list Event) :
  pre `prefix_of` tr -> monotone tr -> monotone pre.
Proof. intros [suf ->] H. by apply Forall_app in H as [? _]. Qed.

(** *** The claims about the QPS counter *)

(** C1 as the code has it.  A fresh counter reports [0].  For a counter
    that has no bucket yet for the second in progress: the [N] calls of
    [increment()] made during that second, whatever else happens
    meanwhile, leave the result of [getQps()] as it was (the count of the
    previous second, [0] when that second has no bucket); once the clock
    has advanced into the next second, [getQps()] returns exactly [N]. *)
Theorem getQps_reports_previous_second
    (m : Machine) (tr1 tr2 : list Event) :
  counter (this m) !! second m = None ->
  monotone tr1 -> second (run m tr1) = second m ->
  monotone tr2 -> increments tr2 = 0 ->
  second (run (run m tr1) tr2) = second m + 1 ->
  (forall t0 ts, qps (init t0 ts) = 0) /\
  (forall pre, pre `prefix_of` tr1 -> qps (run m pre) = qps m) /\
  (counter (this m) !! (second m - 1) = None -> qps (run m tr1) = 0) /\
  qps (run (run m tr1) tr2) = increments tr1.
Proof.
  intros Hnew Htr1 Hs1 Htr2 Hq2 Hs2.
  assert (forall pre, pre `prefix_of` tr1 -> qps (run m pre) = qps m) as Hpre.
  { intros pre Hp. pose proof (prefix_monotone _ _ Hp Htr1) as Hm.
    destruct Hp as [suf ->]. rewrite run_app in Hs1.
    apply Forall_app in Htr1 as [_ Hsuf].
    pose proof (run_second_mono pre m Hm).
    pose proof (run_second_mono suf (run m pre) Hsuf).
    assert (second (run m pre) = second m) as Hsame by lia.
    rewrite !qps_bucket, Hsame.
    rewrite run_bucket_same_second by (done || lia).
    rewrite bool_decide_eq_false_2 by lia. lia. }
  split; [|split; [done|split]].
  - intros t0 ts. by rewrite qps_bucket.
  - intros Hprev. rewrite Hpre by done.
    rewrite qps_bucket. unfold bucket. by rewrite Hprev.
  - rewrite qps_bucket, Hs2.
    replace (second m + 1 - 1) with (second m) by lia.
    rewrite run_bucket_quiet by (done || lia).
    rewrite run_bucket_same_second by (done || lia).
    rewrite bool_decide_eq_true_2 by done.
    unfold bucket. rewrite Hnew. cbn. lia.
Qed.

Lemma getQps_reports_previous_second_witness :
  let m := init 1715347076123 no_timers in
  let tr1 := [Increment; Advance 300; Increment; GetQps; Increment] in
  let tr2 := [Advance 1000; Fire] in
  qps (run m tr1) = 0 /\ qps (run (run m tr1) tr2) = 3.
Proof.
  intros m tr1 tr2.
  assert (monotone tr1) as H1 by (repeat constructor; cbn; lia).
  assert (monotone tr2) as H2 by (repeat constructor; cbn; lia).
  destruct (getQps_reports_previous_second m tr1 tr2
              eq_refl H1 eq_refl H2 eq_refl eq_refl) as (_ & _ & Hin & Hout).
  split; [exact (Hin eq_refl)|exact Hout].
Defined.

(** C1 as stated fails: a counter that recorded two events in second 9
    reports [2], not [0], while the three events of second 10 are being
    recorded. *)
Lemma getQps_not_zero_after_busy_second :
  let m := run (init 9000 no_timers) [Increment; Increment; Advance 1000] in
  let tr := [Increment; Increment; Increment] in
  second m = 10 /\ second (run m tr) = 10 /\ increments tr = 3 /\
  qps (run m tr) = 2 /\ qps (run m tr) <> 0.
Proof. vm_compute. repeat split; congruence. Qed.

Lemma init_keys_upto_now (t0 : Z) (ts : Timers) : keys_upto_now (init t0 ts).
Proof. intros k [v Hv]. by rewrite init_counter, lookup_empty in Hv. Qed.

(** C3 as the code has it.  The sweep deletes exactly the buckets whose
    key is below [currentSecond() - 5].  With a clock that does not go
    back, right after a sweep every key lies in
    [[currentSecond() - 5, currentSecond()]]; from then on, until the
    next sweep, every key is at least the second of that sweep minus 5
    and at most the current second. *)
Theorem sweep_keeps_trailing_window
    (t0 : Z) (ts : Timers) (pre post : list Event) :
  monotone pre -> monotone post ->
  intervalId (this (run (init t0 ts) pre)) ∈ active (timers (run (init t0 ts) pre)) ->
  let m1 := run (init t0 ts) pre in
  let m2 := step m1 Fire in
  let m3 := run m2 post in
  (forall k, counter (this m2) !! k =
             if bool_decide (k < second m1 - 5) then None else counter (this m1) !! k) /\
  (forall k, is_Some (counter (this m2) !! k) -> second m2 - 5 <= k <= second m2) /\
  (forall k, is_Some (counter (this m3) !! k) -> second m2 - 5 <= k <= second m3).
Proof.
  intros Hpre Hpost Hact m1 m2 m3.
  assert (forall k, counter (this m2) !! k =
             if bool_decide (k < second m1 - 5) then None else counter (this m1) !! k)
    as Hexact.
  { intros k. subst m2. cbn. rewrite bool_decide_eq_true_2 by done. cbn.
    apply sweep_lookup. }
  assert (second m2 = second m1) as Hsec.
  { subst m2. cbn. by rewrite bool_decide_eq_true_2 by done. }
  assert (keys_upto_now m1) as Hup1.
  { apply run_keys_upto_now; [done|apply init_keys_upto_now]. }
  assert (keys_upto_now m2) as Hup2 by (by apply step_keys_upto_now).
  assert (keys_from (second m2 - 5) m2) as Hlo2.
  { intros k. rewrite Hexact, Hsec. case_bool_decide; [by intros [? [=]]|]. lia. }
  split; [done|split].
  - intros k Hk. split; [by apply Hlo2|by apply Hup2].
  - intros k Hk. split.
    + revert k Hk. apply run_keys_from; [done|lia|done].
    + revert k Hk. by apply run_keys_upto_now.
Qed.

Lemma sweep_keeps_trailing_window_witness :
  let m1 := run (init 500 no_timers)
              [Increment; Advance 3000; Increment; Advance 4000; Increment] in
  dom (counter (this m1)) = {[ 0; 3; 7 ]} /\
  dom (counter (this (step m1 Fire))) = {[ 3; 7 ]} /\
  forall k, is_Some (counter (this (run (step m1 Fire) [Advance 700; Increment])) !! k) ->
            2 <= k <= 8.
Proof.
  intros m1.
  assert (monotone [Increment; Advance 3000; Increment; Advance 4000; Increment]) as H1
    by (repeat constructor; cbn; lia).
  assert (monotone [Advance 700; Increment]) as H2 by (repeat constructor; cbn; lia).
  assert (intervalId (this m1) ∈ active (timers m1)) as H3
    by (apply (bool_decide_unpack _); vm_compute; exact I).
  destruct (sweep_keeps_trailing_window 500 no_timers _ _ H1 H2 H3) as (_ & _ & Hpost).
  split; [by vm_compute|split; [by vm_compute|]]. exact Hpost.
Defined.

(** C3 as stated fails between two sweeps.  The callback runs every
    1000 ms, at 1500, 2500, ... 10500; an event is recorded at 5000, in
    second 5.  The sweep at 10500 keeps bucket 5 ([5 < 10 - 5] is false);
    at 11000, in second 11, the mapping still holds key 5, six seconds
    old. *)
Lemma bucket_older_than_window_between_sweeps :
  let tr := ticks 4 ++ [Advance 500; Increment; Advance 500; Fire] ++ ticks 5
            ++ [Advance 500] in
  let m := run (init 500 no_timers) tr in
  fired_at (init 500 no_timers) tr
    = [1500; 2500; 3500; 4500; 5500; 6500; 7500; 8500; 9500; 10500] /\
  second m = 11 /\
  counter (this m) !! 5 = Some 1 /\
  ~ (second m - 5 <= 5).
Proof. vm_compute. repeat split; congruence. Qed.

(** C10.  In every state a QpsCounter reaches from its constructor, by
    any calls, sweeps and clock movements, every stored count is
    positive; so [getQps()] returns [0] exactly when the previous second
    has no bucket and the stored count otherwise, and a call of
    [getQps()] leaves the counter as it is. *)
Theorem stored_counts_positive (t0 : Z) (ts : Timers) (tr : list Event) :
  let m := run (init t0 ts) tr in
  (forall k v, counter (this m) !! k = Some v -> 0 < v) /\
  (qps m = 0 <-> counter (this m) !! (second m - 1) = None) /\
  (forall v, counter (this m) !! (second m - 1) = Some v -> qps m = v) /\
  step m GetQps = m.
Proof.
  intros m.
  assert (positive (counter (this m))) as Hpos.
  { apply run_positive. rewrite init_counter. apply map_Forall_empty. }
  rewrite positive_lookup in Hpos.
  split; [done|]. rewrite qps_bucket. unfold bucket.
  destruct (counter (this m) !! (second m - 1)) as [v|] eqn:Hv; cbn.
  - apply Hpos in Hv. repeat split; try done; try lia. by intros ? [= ->].
  - repeat split; done.
Qed.

End QpsCounterFacts.

(** ** Facts about the meter collector *)

Ltac unfold_monad :=
  unfold M, mbind, mret, St_bind, St_ret, get_this, set_this, in_world, opt_call, zoom in *.

Section MeterCollectorFacts.
Import MeterCollector.

Lemma elem_of_object_keys {K V : Type} `{Countable K} (o : gmap K V) (k : K) :
  k ∈ keys o <-> is_Some (o !! k).
Proof.
  unfold keys. rewrite list_elem_of_fmap. split.
  - intros [[k' v] [-> Hin]]. apply elem_of_map_to_list in Hin. by exists v.
  - intros [v Hv]. exists (k, v). split; [done|]. by apply elem_of_map_to_list.
Qed.

Lemma foldl_delete_lookup {K V : Type} `{Countable K}
    (l : list K) (c : gmap K V) (k : K) :
  foldl (fun c key => delete key c) c l !! k =
  if bool_decide (k ∈ l) then None else c !! k.
Proof.
  revert c. induction l as [|x l IH]; intros c; cbn; [done|].
  rewrite IH. destruct (decide (k = x)) as [->|Hne].
  - rewrite (bool_decide_eq_true_2 (x ∈ x :: l)) by apply list_elem_of_here.
    rewrite lookup_delete_eq. by case_bool_decide.
  - rewrite lookup_delete_ne by done.
    apply (f_equal (fun b : bool => if b then None else c !! k)).
    apply bool_decide_ext. rewrite elem_of_cons.
    split; [by right|intros [?|?]; [congruence|done]].
Qed.

Lemma delete_all_keys {K V : Type} `{Countable K} (c : gmap K V) :
  foldl (fun c key => delete key c) c (keys c) = ∅.
Proof.
  apply map_eq. intros k. rewrite foldl_delete_lookup, lookup_empty.
  case_bool_decide as Hin; [done|].
  rewrite elem_of_object_keys in Hin. by apply eq_None_not_Some.
Qed.

(** The base [shutdown()] written out. *)
Lemma base_shutdown_eq (this : t) (w : World) :
  shutdown (this, w) =
  (tt, ({| meter := meter this; meter_cache := (fun _ => ∅) <$> meter_cache this |}, w)).
Proof.
  unfold shutdown. unfold_monad. cbn.
  destruct this as [mt [cache|]]; cbn; [|done].
  by rewrite delete_all_keys.
Qed.

(** The ways through [__getCachedMeter]. *)
Lemma cached_unbound (key : string) (creator : t -> St World (option Handle))
    (this : t) (w : World) :
  meter this = None \/ meter_cache this = None ->
  __getCachedMeter key creator (this, w) = (None, (this, w)).
Proof.
  unfold __getCachedMeter. unfold_monad. cbn.
  intros [-> | ->]; [done|]. by destruct (meter this).
Qed.

Lemma cached_hit (key : string) (creator : t -> St World (option Handle))
    (this : t) (w : World) (mt : Meter) (cache : gmap string Handle) (h : Handle) :
  meter this = Some mt -> meter_cache this = Some cache -> cache !! key = Some h ->
  __getCachedMeter key creator (this, w) = (Some h, (this, w)).
Proof.
  unfold __getCachedMeter. unfold_monad. cbn. by intros -> -> ->.
Qed.

Lemma cached_miss (key : string) (creator : t -> St World (option Handle))
    (this : t) (w : World) (mt : Meter) (cache : gmap string Handle) :
  meter this = Some mt -> meter_cache this = Some cache -> cache !! key = None ->
  __getCachedMeter key creator (this, w) =
  match creator this w with
  | (Some h, w') =>
      (Some h, ({| meter := meter this; meter_cache := Some (<[key := h]> cache) |}, w'))
  | (None, w') => (None, (this, w'))
  end.
Proof.
  unfold __getCachedMeter. unfold_monad. cbn. intros Hm -> ->. rewrite Hm.
  cbn. by destruct (creator this w) as [[h|] w'].
Qed.

Lemma getCounter_miss (n : string) (o : option MetricOptions) (this : t) (w : World)
    (mt : Meter) (cache : gmap string Handle) :
  meter this = Some mt -> meter_cache this = Some cache ->
  cache !! ("counter-" +:+ n) = None ->
  getCounter n o (this, w) =
  match createCounter mt (backend w) n o with
  | Some h =>
      (Some h, ({| meter := meter this;
                   meter_cache := Some (<[("counter-" +:+ n) := h]> cache) |},
                told (CreateCounter n o) w))
  | None => (None, (this, told (CreateCounter n o) w))
  end.
Proof.
  intros Hm Hc Hk. unfold getCounter.
  rewrite (cached_miss _ _ _ _ mt cache) by done.
  rewrite Hm. unfold backend_create. by destruct (createCounter mt (backend w) n o).
Qed.

Lemma getObservableCounter_miss (n : string) (o : option MetricOptions) (this : t)
    (w : World) (mt : Meter) (cache : gmap string Handle) :
  meter this = Some mt -> meter_cache this = Some cache ->
  cache !! ("observable-counter-" +:+ n) = None ->
  getObservableCounter n o (this, w) =
  match createObservableCounter mt (backend w) n o with
  | Some h =>
      (Some h, ({| meter := meter this;
                   meter_cache := Some (<[("observable-counter-" +:+ n) := h]> cache) |},
                told (CreateObservableCounter n o) w))
  | None => (None, (this, told (CreateObservableCounter n o) w))
  end.
Proof.
  intros Hm Hc Hk. unfold getObservableCounter.
  rewrite (cached_miss _ _ _ _ mt cache) by done.
  rewrite Hm. unfold backend_create.
  by destruct (createObservableCounter mt (backend w) n o).
Qed.

(** C5.  With no meter bound both getters return [undefined] and touch
    nothing.  With a meter bound and no cached handle for the name, a
    create call that yields no handle makes the getter return
    [undefined]; the collector, its cache included, is left as it was,
    and the next call with the same name asks the backend again. *)
Theorem getters_absent_without_handle
    (this : t) (w : World) (n : string) (o o' : option MetricOptions) :
  (meter this = None ->
     getCounter n o (this, w) = (None, (this, w)) /\
     getObservableCounter n o (this, w) = (None, (this, w))) /\
  (forall mt cache,
     meter this = Some mt -> meter_cache this = Some cache ->
     cache !! ("counter-" +:+ n) = None ->
     createCounter mt (backend w) n o = None ->
     getCounter n o (this, w) = (None, (this, told (CreateCounter n o) w)) /\
     backend (getCounter n o' (this, told (CreateCounter n o) w)).2.2
       = backend w ++ [CreateCounter n o; CreateCounter n o']) /\
  (forall mt cache,
     meter this = Some mt -> meter_cache this = Some cache ->
     cache !! ("observable-counter-" +:+ n) = None ->
     createObservableCounter mt (backend w) n o = None ->
     getObservableCounter n o (this, w)
       = (None, (this, told (CreateObservableCounter n o) w)) /\
     backend (getObservableCounter n o' (this, told (CreateObservableCounter n o) w)).2.2
       = backend w ++ [CreateObservableCounter n o; CreateObservableCounter n o']).
Proof.
  split; [|split].
  - intros Hm. split; apply cached_unbound; by left.
  - intros mt cache Hm Hc Hk Hfail. split.
    + rewrite (getCounter_miss _ _ _ _ mt cache) by done. by rewrite Hfail.
    + rewrite (getCounter_miss _ _ _ _ mt cache) by done.
      destruct (createCounter mt _ n o'); cbn; by rewrite <- app_assoc.
  - intros mt cache Hm Hc Hk Hfail. split.
    + rewrite (getObservableCounter_miss _ _ _ _ mt cache) by done. by rewrite Hfail.
    + rewrite (getObservableCounter_miss _ _ _ _ mt cache) by done.
      destruct (createObservableCounter mt _ n o'); cbn; by rewrite <- app_assoc.
Qed.

Lemma getters_absent_without_handle_witness :
  let this := new (with_meter barren_meter) None in
  let w := empty_world 0 in
  getCounter "a" None (this, w) = (None, (this, told (CreateCounter "a" None) w)) /\
  backend (getCounter "a" None (this, told (CreateCounter "a" None) w)).2.2
    = [CreateCounter "a" None; CreateCounter "a" None] /\
  getObservableCounter "a" None (new headless None, w) = (None, (new headless None, w)).
Proof.
  intros this w.
  destruct (getters_absent_without_handle this w "a" None None) as (_ & Hc & _).
  destruct (Hc barren_meter ∅ eq_refl eq_refl eq_refl eq_refl) as [H1 H2].
  destruct (getters_absent_without_handle (new headless None) w "a" None None)
    as (Hu & _ & _).
  destruct (Hu eq_refl) as [_ H3].
  split; [exact H1|split; [exact H2|exact H3]].
Defined.

(** *** The cache between shutdowns *)

Lemma counter_key_inj (a b : string) : "counter-" +:+ a = "counter-" +:+ b -> a = b.
Proof. cbn. by intros [=]. Qed.

Lemma observable_key_inj (a b : string) :
  "observable-counter-" +:+ a = "observable-counter-" +:+ b -> a = b.
Proof. cbn. by intros [=]. Qed.

Lemma keys_apart (a b : string) : "counter-" +:+ a <> "observable-counter-" +:+ b.
Proof. cbn. by intros [=]. Qed.

Lemma counter_creations_told_other (n : string) (c : BackendCall) (w : World) :
  creates_counter n c = false ->
  counter_creations n (backend (told c w)) = counter_creations n (backend w).
Proof.
  intros Hc. unfold counter_creations, told. cbn.
  rewrite filter_app, filter_cons, filter_nil. case_decide; [congruence|].
  by rewrite app_nil_r.
Qed.

Lemma observable_creations_told_other (n : string) (c : BackendCall) (w : World) :
  creates_observable n c = false ->
  observable_creations n (backend (told c w)) = observable_creations n (backend w).
Proof.
  intros Hc. unfold observable_creations, told. cbn.
  rewrite filter_app, filter_cons, filter_nil. case_decide; [congruence|].
  by rewrite app_nil_r.
Qed.

(** A getter call keeps every cached handle, and asks the backend to
    create nothing that is cached. *)
Lemma get_keeps_cached (key : string) (h : Handle) (g : Get) (s : t * World) :
  cached key h s ->
  cached key h (get g s).2 /\
  (forall n, key = "counter-" +:+ n ->
     counter_creations n (backend (get g s).2.2) = counter_creations n (backend s.2)) /\
  (forall n, key = "observable-counter-" +:+ n ->
     observable_creations n (backend (get g s).2.2)
     = observable_creations n (backend s.2)).
Proof.
  destruct s as [this w]. intros (mt & cache & Hm & Hc & Hk). cbn [fst snd] in *.
  destruct g as [n' o'|n' o']; cbn [get].
  - destruct (cache !! ("counter-" +:+ n')) as [h'|] eqn:Hk'.
    + unfold getCounter. rewrite (cached_hit _ _ _ _ mt cache h') by done.
      cbn [fst snd]. split; [by exists mt, cache|done].
    + rewrite (getCounter_miss _ _ _ _ mt cache) by done.
      assert (key <> "counter-" +:+ n') as Hne by congruence.
      assert (forall n, key = "counter-" +:+ n ->
                creates_counter n (CreateCounter n' o') = false) as Hother.
      { intros n ->. cbn [creates_counter]. apply bool_decide_eq_false_2.
        intros ->. done. }
      destruct (createCounter mt (backend w) n' o') as [h'|]; cbn [fst snd].
      * split; [|split].
        -- exists mt, (<[("counter-" +:+ n') := h']> cache).
           cbn. by rewrite lookup_insert_ne.
        -- intros n Hn. apply counter_creations_told_other. by apply Hother.
        -- intros n Hn. by apply observable_creations_told_other.
      * split; [|split].
        -- by exists mt, cache.
        -- intros n Hn. apply counter_creations_told_other. by apply Hother.
        -- intros n Hn. by apply observable_creations_told_other.
  - destruct (cache !! ("observable-counter-" +:+ n')) as [h'|] eqn:Hk'.
    + unfold getObservableCounter. rewrite (cached_hit _ _ _ _ mt cache h') by done.
      cbn [fst snd]. split; [by exists mt, cache|done].
    + rewrite (getObservableCounter_miss _ _ _ _ mt cache) by done.
      assert (key <> "observable-counter-" +:+ n') as Hne by congruence.
      assert (forall n, key = "observable-counter-" +:+ n ->
                creates_observable n (CreateObservableCounter n' o') = false) as Hother.
      { intros n ->. cbn [creates_observable]. apply bool_decide_eq_false_2.
        intros ->. done. }
      destruct (createObservableCounter mt (backend w) n' o') as [h'|]; cbn [fst snd].
      * split; [|split].
        -- exists mt, (<[("observable-counter-" +:+ n') := h']> cache).
           cbn. by rewrite lookup_insert_ne.
        -- intros n Hn. by apply counter_creations_told_other.
        -- intros n Hn. apply observable_creations_told_other. by apply Hother.
      * split; [|split].
        -- by exists mt, cache.
        -- intros n Hn. by apply counter_creations_told_other.
        -- intros n Hn. apply observable_creations_told_other. by apply Hother.
Qed.

Lemma gets_keep_cached (key : string) (h : Handle) (gs : list Get) (s : t * World) :
  cached key h s ->
  cached key h (gets s gs) /\
  (forall n, key = "counter-" +:+ n ->
     counter_creations n (backend (gets s gs).2) = counter_creations n (backend s.2)) /\
  (forall n, key = "observable-counter-" +:+ n ->
     observable_creations n (backend (gets s gs).2)
     = observable_creations n (backend s.2)).
Proof.
  revert s. induction gs as [|g gs IH]; intros s Hs; [done|].
  destruct (get_keeps_cached key h g s Hs) as (H1 & H2 & H3).
  destruct (IH _ H1) as (I1 & I2 & I3). cbn [gets foldl] in *.
  split; [done|split].
  - intros n Hn. rewrite I2 by done. by apply H2.
  - intros n Hn. rewrite I3 by done. by apply H3.
Qed.

Lemma cached_get_again (key : string) (h : Handle)
    (creator : t -> St World (option Handle)) (s : t * World) :
  cached key h s -> __getCachedMeter key creator s = (Some h, s).
Proof.
  destruct s as [this w]. intros (mt & cache & Hm & Hc & Hk).
  by apply (cached_hit _ _ _ _ mt cache).
Qed.

Lemma cached_after_some (key : string) (h : Handle)
    (creator : t -> St World (option Handle)) (s s1 : t * World) :
  __getCachedMeter key creator s = (Some h, s1) -> cached key h s1.
Proof.
  destruct s as [this w].
  destruct (meter this) as [mt|] eqn:Hm;
    [|rewrite cached_unbound by (by left); done].
  destruct (meter_cache this) as [cache|] eqn:Hc;
    [|rewrite cached_unbound by (by right); done].
  destruct (cache !! key) as [h'|] eqn:Hk.
  - rewrite (cached_hit _ _ _ _ mt cache h') by done.
    intros [= -> <-]. by exists mt, cache.
  - rewrite (cached_miss _ _ _ _ mt cache) by done.
    destruct (creator this w) as [[h'|] w']; [|done].
    intros [= -> <-]. exists mt, (<[key := h]> cache). cbn.
    by rewrite Hm, lookup_insert_eq.
Qed.

(** C4 as the code has it.  Once [getCounter(n)] has returned a handle,
    then, as long as [shutdown()] is not called, whatever getter calls
    are made in between, a further [getCounter(n)] returns that same
    handle and leaves collector and backend as they are, and the
    backend is not asked again to create the counter [n]; likewise for
    [getObservableCounter]. *)
Theorem cached_handle_reused
    (s s1 : t * World) (n : string) (o o2 : option MetricOptions) (h : Handle)
    (gs : list Get) :
  (getCounter n o s = (Some h, s1) ->
     getCounter n o2 (gets s1 gs) = (Some h, gets s1 gs) /\
     counter_creations n (backend (gets s1 gs).2)
     = counter_creations n (backend s1.2)) /\
  (getObservableCounter n o s = (Some h, s1) ->
     getObservableCounter n o2 (gets s1 gs) = (Some h, gets s1 gs) /\
     observable_creations n (backend (gets s1 gs).2)
     = observable_creations n (backend s1.2)).
Proof.
  split; intros Hget; apply cached_after_some in Hget;
    destruct (gets_keep_cached _ h gs s1 Hget) as (H1 & H2 & H3).
  - split; [by apply cached_get_again|by apply H2].
  - split; [by apply cached_get_again|by apply H3].
Qed.

Lemma cached_handle_reused_witness :
  let s := (new (with_meter fresh_meter) None, empty_world 0) in
  let s1 := (getCounter "a" None s).2 in
  let gs := [GetCounter "b" None; GetObservableCounter "a" None; GetCounter "a" None] in
  getCounter "a" None s = (Some 0%nat, s1) /\
  getCounter "a" None (gets s1 gs) = (Some 0%nat, gets s1 gs) /\
  counter_creations "a" (backend (gets s1 gs).2) = 1%nat.
Proof.
  intros s s1 gs.
  assert (getCounter "a" None s = (Some 0%nat, s1)) as H0 by (by vm_compute).
  destruct (cached_handle_reused s s1 "a" None None 0%nat gs) as [Hc _].
  destruct (Hc H0) as [H1 H2].
  split; [exact H0|split; [exact H1|]]. rewrite H2. by vm_compute.
Defined.

(** C4 as stated fails.  After [shutdown()] the same collector creates
    the counter again and returns another object; and a create call that
    yields no handle is repeated by the next call. *)
Lemma counter_created_twice :
  (let s0 := (new (with_meter fresh_meter) None, empty_world 0) in
   let r1 := getCounter "a" None s0 in
   let r2 := getCounter "a" None (shutdown r1.2).2 in
   r1.1 = Some 0%nat /\ r2.1 = Some 1%nat /\ r1.1 <> r2.1 /\
   counter_creations "a" (backend r2.2.2) = 2%nat) /\
  (let s0 := (new (with_meter flaky_meter) None, empty_world 0) in
   let r1 := getCounter "a" None s0 in
   let r2 := getCounter "a" None r1.2 in
   r1.1 = None /\ r2.1 = Some 1%nat /\ r1.1 <> r2.1 /\
   counter_creations "a" (backend r2.2.2) = 2%nat).
Proof. vm_compute. repeat split; congruence. Qed.

(** *** What a getter call leaves alone *)

Lemma only_creates_refl (w : World) : only_creates w w.
Proof. done. Qed.

Lemma only_creates_trans (w1 w2 w3 : World) :
  only_creates w1 w2 -> only_creates w2 w3 -> only_creates w1 w3.
Proof.
  intros (A1 & A2 & A3 & A4) (B1 & B2 & B3 & B4).
  repeat split; congruence.
Qed.

Lemma only_creates_told_counter (n : string) (o : option MetricOptions) (w : World) :
  only_creates w (told (CreateCounter n o) w).
Proof.
  repeat split. unfold told. cbn.
  rewrite filter_app, filter_cons, filter_nil. case_decide; [done|].
  by rewrite app_nil_r.
Qed.

Lemma only_creates_told_observable (n : string) (o : option MetricOptions) (w : World) :
  only_creates w (told (CreateObservableCounter n o) w).
Proof.
  repeat split. unfold told. cbn.
  rewrite filter_app, filter_cons, filter_nil. case_decide; [done|].
  by rewrite app_nil_r.
Qed.

Lemma get_frame (g : Get) (s : t * World) :
  only_creates s.2 (get g s).2.2 /\
  meter (get g s).2.1 = meter s.1 /\
  (meter s.1 = None -> get g s = (None, s)).
Proof.
  destruct s as [this w]. cbn [fst snd].
  destruct (meter this) as [mt|] eqn:Hm.
  2:{ assert (get g (this, w) = (None, (this, w))) as ->; [|done].
      destruct g; apply cached_unbound; by left. }
  destruct (meter_cache this) as [cache|] eqn:Hc.
  2:{ assert (get g (this, w) = (None, (this, w))) as ->; [|done].
      destruct g; apply cached_unbound; by right. }
  destruct g as [n o|n o]; cbn [get].
  - destruct (cache !! ("counter-" +:+ n)) as [h|] eqn:Hk.
    + unfold getCounter. rewrite (cached_hit _ _ _ _ mt cache h) by done.
      by rewrite ?Hm.
    + rewrite (getCounter_miss _ _ _ _ mt cache) by done.
      destruct (createCounter mt (backend w) n o); cbn [fst snd meter];
        rewrite ?Hm; (split; [apply only_creates_told_counter|done]).
  - destruct (cache !! ("observable-counter-" +:+ n)) as [h|] eqn:Hk.
    + unfold getObservableCounter. rewrite (cached_hit _ _ _ _ mt cache h) by done.
      by rewrite ?Hm.
    + rewrite (getObservableCounter_miss _ _ _ _ mt cache) by done.
      destruct (createObservableCounter mt (backend w) n o); cbn [fst snd meter];
        rewrite ?Hm; (split; [apply only_creates_told_observable|done]).
Qed.

End MeterCollectorFacts.

(** ** Facts about the facades *)

Section FacadeFacts.
Import Facade.

Lemma clearInterval_twice (id : TimerId) (ts : Timers) :
  clearInterval id (clearInterval id ts) = clearInterval id ts.
Proof.
  unfold clearInterval; cbn. f_equal. apply set_eq. intros x.
  rewrite !elem_of_difference. tauto.
Qed.

Lemma clearInterval_inactive (id : TimerId) (ts : Timers) :
  id ∉ active (clearInterval id ts).
Proof.
  unfold clearInterval; cbn. rewrite elem_of_difference, elem_of_singleton. tauto.
Qed.

(** The facade's [shutdown()] written out. *)
Lemma facade_shutdown_eq (f : t) (w : World) :
  shutdown (f, w) =
  (tt, (set_super (MeterCollector.shutdown (super f, w)).2.1 f,
        match qpsCounter f ≫= (fun l => heap w !! l) with
        | Some c => {| now := now w; timers := QpsCounter.stop c (timers w);
                       heap := heap w; backend := backend w |}
        | None => w
        end)).
Proof.
  unfold shutdown. unfold_monad. cbn. rewrite base_shutdown_eq. cbn.
  destruct (qpsCounter f) as [l|]; cbn; [|done].
  unfold qps_stop. by destruct (heap w !! l).
Qed.

(** C8.  The base [shutdown()] empties the handle cache and changes
    nothing else: the meter, the clock, the timers, the QpsCounter
    objects and the backend are as before.  The facade's [shutdown()]
    does that to its base part and then clears the interval of its own
    QpsCounter, when it has one; with none, the world is untouched. *)
Theorem base_shutdown_only_clears_cache
    (this : MeterCollector.t) (f : t) (w : World) :
  MeterCollector.shutdown (this, w) =
    (tt, ({| MeterCollector.meter := MeterCollector.meter this;
             MeterCollector.meter_cache :=
               (fun _ => ∅) <$> MeterCollector.meter_cache this |}, w)) /\
  (shutdown (f, w)).2.1 = set_super (MeterCollector.shutdown (super f, w)).2.1 f /\
  (qpsCounter f = None -> (shutdown (f, w)).2.2 = w) /\
  (forall l c, qpsCounter f = Some l -> heap w !! l = Some c ->
     (shutdown (f, w)).2.2 =
     {| now := now w; timers := clearInterval (QpsCounter.intervalId c) (timers w);
        heap := heap w; backend := backend w |}).
Proof.
  split; [apply base_shutdown_eq|]. rewrite facade_shutdown_eq. cbn [fst snd].
  split; [done|split].
  - by intros ->.
  - intros l c -> Hc. cbn. by rewrite Hc.
Qed.

Lemma base_shutdown_only_clears_cache_witness :
  let s := run (new Provider (with_meter fresh_meter) None (empty_world 0))
             [Request None] in
  active (timers s.2) = {[ 0%nat ]} /\
  (MeterCollector.shutdown (super s.1, s.2)).2.2 = s.2 /\
  (shutdown s).2.2 =
    {| now := now s.2; timers := clearInterval 0%nat (timers s.2);
       heap := heap s.2; backend := backend s.2 |}.
Proof.
  intros s.
  assert (active (timers s.2) = {[ 0%nat ]}) as Ha by (vm_compute; reflexivity).
  assert (qpsCounter s.1 = Some 0%nat) as Hq by (vm_compute; reflexivity).
  assert (heap s.2 !! 0%nat
          = Some {| QpsCounter.counter := {[ 0 := 1 ]}; QpsCounter.intervalId := 0%nat |})
    as Hc by (vm_compute; reflexivity).
  clearbody s. destruct s as [f w]. cbn [fst snd] in *.
  destruct (base_shutdown_only_clears_cache (super f) f w) as (H1 & _ & _ & H2).
  split; [exact Ha|split].
  - rewrite H1. reflexivity.
  - exact (H2 _ _ Hq Hc).
Defined.

Lemma base_shutdown_twice (s : MeterCollector.t * World) :
  (MeterCollector.shutdown (MeterCollector.shutdown s).2).2
  = (MeterCollector.shutdown s).2.
Proof.
  destruct s as [this w]. rewrite !base_shutdown_eq. cbn.
  by destruct (MeterCollector.meter_cache this).
Qed.

Lemma facade_shutdown_twice (s : t * World) :
  (shutdown (shutdown s).2).2 = (shutdown s).2.
Proof.
  destruct s as [f w]. rewrite (facade_shutdown_eq f w). cbn [snd].
  rewrite facade_shutdown_eq. cbn [fst snd set_super super qpsCounter].
  rewrite !base_shutdown_eq. cbn [fst snd]. f_equal.
  - unfold set_super; cbn. by destruct (MeterCollector.meter_cache (super f)).
  - destruct (qpsCounter f) as [l|]; cbn; [|done].
    destruct (heap w !! l) as [c|] eqn:Hc; cbn; rewrite Hc; [|done].
    unfold QpsCounter.stop. by rewrite clearInterval_twice.
Qed.

(** C7.  A second, third, ... [shutdown()] of a facade (and of the base
    collector) leaves it in the state the first one reached, where the
    cache is empty and the interval of the owned QpsCounter is cleared;
    the same holds for [stop()] on a QpsCounter.  No call fails: each is
    a total function of the state. *)
Theorem shutdown_and_stop_idempotent
    (s : t * World) (b : MeterCollector.t * World)
    (q : QpsCounter.t) (ts : Timers) (m : QpsCounter.Machine) (n : nat) :
  Nat.iter (S n) (fun s => (shutdown s).2) s = (shutdown s).2 /\
  MeterCollector.meter_cache (super (shutdown s).2.1)
    = (fun _ => ∅) <$> MeterCollector.meter_cache (super s.1) /\
  (forall l c, qpsCounter s.1 = Some l -> heap s.2 !! l = Some c ->
     QpsCounter.intervalId c ∉ active (timers (shutdown s).2.2)) /\
  Nat.iter (S n) (fun b => (MeterCollector.shutdown b).2) b
    = (MeterCollector.shutdown b).2 /\
  Nat.iter (S n) (QpsCounter.stop q) ts = QpsCounter.stop q ts /\
  (QpsCounter.intervalId q ∉ active (QpsCounter.stop q ts)) /\
  QpsCounter.run m (replicate (S n) QpsCounter.Stop) = QpsCounter.step m QpsCounter.Stop.
Proof.
  repeat split.
  - induction n as [|n IH]; [done|].
    change (Nat.iter (S (S n)) ?f ?x) with (f (Nat.iter (S n) f x)).
    rewrite IH. apply facade_shutdown_twice.
  - destruct s as [f w]. rewrite facade_shutdown_eq, base_shutdown_eq. done.
  - destruct s as [f w]. intros l c Hl Hc. rewrite facade_shutdown_eq.
    cbn in *. rewrite Hl. cbn. rewrite Hc. cbn. apply clearInterval_inactive.
  - induction n as [|n IH]; [done|].
    change (Nat.iter (S (S n)) ?f ?x) with (f (Nat.iter (S n) f x)).
    rewrite IH. apply base_shutdown_twice.
  - induction n as [|n IH]; [done|].
    change (Nat.iter (S (S n)) ?f ?x) with (f (Nat.iter (S n) f x)).
    rewrite IH. apply clearInterval_twice.
  - apply clearInterval_inactive.
  - induction n as [|n IH]; [done|].
    change (replicate (S (S n)) ?x) with (x :: replicate (S n) x).
    change (QpsCounter.run m (?e :: ?tr)) with (QpsCounter.run (QpsCounter.step m e) tr).
    change (replicate (S n) ?x) with (x :: replicate n x) in *.
    change (QpsCounter.run ?m' (?e :: ?tr))
      with (QpsCounter.run (QpsCounter.step m' e) tr) in *.
    assert (QpsCounter.step (QpsCounter.step m QpsCounter.Stop) QpsCounter.Stop
            = QpsCounter.step m QpsCounter.Stop) as ->; [|done].
    cbn. unfold QpsCounter.stop. by rewrite clearInterval_twice.
Qed.

(** *** One counter and one callback per facade *)

Lemma callbacks_told (c : BackendCall) (w : World) :
  callbacks (told c w) = callbacks w ++ (if is_addCallback c then [c] else []).
Proof.
  unfold callbacks, told. cbn. rewrite filter_app, filter_cons, filter_nil.
  destruct (is_addCallback c); by case_decide.
Qed.

Lemma callbacks_told_on (h : option Handle) (mk : Handle -> BackendCall) (w : World) :
  callbacks (told_on h mk w) =
  callbacks w ++ match h with
                 | Some h' => if is_addCallback (mk h') then [mk h'] else []
                 | None => []
                 end.
Proof. destruct h; cbn; [apply callbacks_told|by rewrite app_nil_r]. Qed.

(** The request method written out: the first call, and the later ones. *)
Lemma request_first (a : option Attributes) (f : t) (w : World) :
  qpsCounter f = None ->
  request a (f, w) =
  (tt, ({| super := super f; requestTotal := requestTotal f;
           requestSucceedTotal := requestSucceedTotal f;
           requestFailedTotal := requestFailedTotal f;
           requestQps := requestQps f; qpsCounter := Some (length (heap w)) |},
        (qps_increment (length (heap w))
           (told_on (requestQps f) (fun h => AddCallback h (ObserveQps (length (heap w))))
              (new_QpsCounter
                 (told_on (requestTotal f) (fun h => Add h 1 a) w)).2)).2)).
Proof.
  destruct f as [sup h1 h2 h3 h4 q]. cbn. intros ->.
  unfold request. unfold_monad. by destruct h1, h4.
Qed.

Lemma request_later (a : option Attributes) (f : t) (w : World) (l : Loc) :
  qpsCounter f = Some l ->
  request a (f, w) =
  (tt, (f, (qps_increment l (told_on (requestTotal f) (fun h => Add h 1 a) w)).2)).
Proof.
  destruct f as [sup h1 h2 h3 h4 q]. cbn. intros ->.
  unfold request. unfold_monad. by destruct h1.
Qed.

Lemma requestSucceed_eq (a : option Attributes) (f : t) (w : World) :
  requestSucceed a (f, w) =
  (tt, (f, told_on (requestSucceedTotal f) (fun h => Add h 1 a) w)).
Proof. unfold requestSucceed. unfold_monad. cbn. by destruct (requestSucceedTotal f). Qed.

Lemma requestFailed_eq (a : option Attributes) (f : t) (w : World) :
  requestFailed a (f, w) =
  (tt, (f, told_on (requestFailedTotal f) (fun h => Add h 1 a) w)).
Proof. unfold requestFailed. unfold_monad. cbn. by destruct (requestFailedTotal f). Qed.

Lemma heap_told_on (h : option Handle) (mk : Handle -> BackendCall) (w : World) :
  heap (told_on h mk w) = heap w.
Proof. by destruct h. Qed.

Lemma qps_increment_heap_length (l : Loc) (w : World) :
  length (heap (qps_increment l w).2) = length (heap w).
Proof. cbn. apply length_alter. Qed.

Lemma qps_increment_callbacks (l : Loc) (w : World) :
  callbacks (qps_increment l w).2 = callbacks w.
Proof. done. Qed.

Lemma new_QpsCounter_heap_length (w : World) :
  length (heap (new_QpsCounter w).2) = S (length (heap w)).
Proof. cbn. rewrite length_app. cbn. lia. Qed.

Lemma new_QpsCounter_callbacks (w : World) :
  callbacks (new_QpsCounter w).2 = callbacks w.
Proof. done. Qed.

Lemma callbacks_told_on_add (h : option Handle) (a : option Attributes) (w : World) :
  callbacks (told_on h (fun h => Add h 1 a) w) = callbacks w.
Proof. rewrite callbacks_told_on. destruct h; cbn; by rewrite app_nil_r. Qed.

Lemma call_settled (f0 : t) (w1 : World) (b : bool) (c : Call) (s : t * World) :
  settled f0 w1 b s -> settled f0 w1 (b || is_request c) (call c s).2.
Proof.
  destruct s as [f w]. intros (Hh & Hlen & Hq & Hcb). cbn [fst snd] in *.
  destruct c as [a|a|a| |ms|l]; cbn [call is_request]; rewrite ?orb_false_r.
  - rewrite orb_true_r. destruct b.
    + rewrite (request_later _ _ _ _ Hq). unfold settled. cbn [fst snd].
      rewrite qps_increment_heap_length, qps_increment_callbacks.
      by rewrite heap_told_on, callbacks_told_on_add.
    + rewrite (request_first _ _ _ Hq). unfold settled. cbn [fst snd qpsCounter].
      assert (requestQps f = requestQps f0) as HQ by (by injection Hh).
      rewrite qps_increment_heap_length, qps_increment_callbacks.
      rewrite heap_told_on, callbacks_told_on, new_QpsCounter_heap_length.
      rewrite new_QpsCounter_callbacks, heap_told_on, callbacks_told_on_add.
      rewrite Hcb, app_nil_r.
      unfold own_callback. rewrite <- HQ.
      replace (length (heap w)) with (length (heap w1)) by lia.
      split; [done|]. split; [lia|]. split; [done|].
      by destruct (requestQps f).
  - rewrite requestSucceed_eq. unfold settled. cbn [fst snd].
    by rewrite heap_told_on, callbacks_told_on_add.
  - rewrite requestFailed_eq. unfold settled. cbn [fst snd].
    by rewrite heap_told_on, callbacks_told_on_add.
  - rewrite facade_shutdown_eq. cbn [fst snd]. unfold settled. cbn [fst snd].
    destruct (qpsCounter f ≫= _); done.
  - done.
  - unfold fire. unfold_monad. cbn.
    destruct (heap w !! l); [|done]. case_bool_decide; [|done].
    unfold settled. cbn. by rewrite length_insert.
Qed.

Lemma requested_app (tr1 tr2 : list Call) :
  requested (tr1 ++ tr2) = requested tr1 || requested tr2.
Proof. apply existsb_app. Qed.

Lemma run_settled (f0 : t) (w1 : World) (tr : list Call) (b : bool) (s : t * World) :
  settled f0 w1 b s -> settled f0 w1 (b || requested tr) (run s tr).
Proof.
  revert b s. induction tr as [|c tr IH]; intros b s Hs; cbn.
  - by rewrite orb_false_r.
  - rewrite orb_assoc. apply IH. by apply call_settled.
Qed.

(** The constructor reaches the backend with create calls only, and owns
    no QpsCounter yet; with no meter it gets no handle and touches
    nothing. *)
Lemma new_frame (r : Role) (metrics : Metrics) (options : option MeterCollectorOptions)
    (w0 : World) :
  let res := new r metrics options w0 in
  qpsCounter res.1 = None /\
  MeterCollector.only_creates w0 res.2 /\
  MeterCollector.meter (super res.1)
    = MeterCollector.meter (MeterCollector.new metrics options) /\
  (MeterCollector.meter (MeterCollector.new metrics options) = None ->
     res = ({| super := MeterCollector.new metrics options;
               requestTotal := None; requestSucceedTotal := None;
               requestFailedTotal := None; requestQps := None;
               qpsCounter := None |}, w0)).
Proof.
  unfold new. unfold_monad.
  set (s0 := (MeterCollector.new metrics options, w0)).
  change w0 with s0.2. change (MeterCollector.new metrics options) with s0.1.
  generalize s0. clear. intros s0.
  pose proof (get_frame (MeterCollector.GetCounter (requests_total r)
    (int_metric ("The total number of received requests by the " +:+ role_word r))) s0)
    as (F1 & M1 & N1).
  cbn [MeterCollector.get] in *.
  destruct (MeterCollector.getCounter (requests_total r) _ s0) as [h1 s1].
  pose proof (get_frame (MeterCollector.GetCounter (requests_succeed_total r)
    (int_metric ("The total number of successfully received requests by the "
                 +:+ role_word r))) s1) as (F2 & M2 & N2).
  cbn [MeterCollector.get] in *.
  destruct (MeterCollector.getCounter (requests_succeed_total r) _ s1) as [h2 s2].
  pose proof (get_frame (MeterCollector.GetCounter (requests_failed_total r)
    (int_metric ("The total number of unsuccessfully received requests by the "
                 +:+ role_word r))) s2) as (F3 & M3 & N3).
  cbn [MeterCollector.get] in *.
  destruct (MeterCollector.getCounter (requests_failed_total r) _ s2) as [h3 s3].
  pose proof (get_frame (MeterCollector.GetObservableCounter (qps_total r)
    (int_metric ("The number of requests received by the " +:+ role_word r
                 +:+ " per second"))) s3) as (F4 & M4 & N4).
  cbn [MeterCollector.get] in *.
  destruct (MeterCollector.getObservableCounter (qps_total r) _ s3) as [h4 s4].
  destruct s4 as [b4 w4]. cbn [fst snd] in *.
  split; [done|]. split; [|split].
  - eauto using only_creates_trans.
  - cbn. congruence.
  - intros H0.
    specialize (N1 H0). injection N1 as -> ->.
    specialize (N2 H0). injection N2 as -> ->.
    specialize (N3 H0). injection N3 as -> ->.
    specialize (N4 H0). injection N4 as -> Hs. rewrite <- Hs. by destruct s0.
Qed.

Lemma observe_callbacks (h : Handle) (w : World) (calls : list BackendCall) :
  observe h w calls = observe h w (filter (fun c => is_addCallback c = true) calls).
Proof.
  unfold observe. induction calls as [|c calls IH]; [done|].
  rewrite filter_cons. destruct c as [| | |h' [l]]; cbn; try done.
  by rewrite IH.
Qed.

(** C6 as the code has it.  Whatever is called on a facade after its
    construction, in any order and any number of times: a QpsCounter has
    been constructed exactly once if the request method was invoked and
    never otherwise; the callback that reads that counter has been
    registered exactly once if the request method was invoked and the
    qps handle was obtained by the constructor, and never otherwise;
    and a poll observes nothing from a facade whose request method was
    not invoked. *)
Theorem one_counter_one_callback
    (r : Role) (metrics : Metrics) (options : option MeterCollectorOptions)
    (w0 : World) (tr : list Call) :
  let f0 := (new r metrics options w0).1 in
  let s := run (new r metrics options w0) tr in
  constructed s.2 = (constructed w0 + (if requested tr then 1 else 0))%nat /\
  qpsCounter s.1 = (if requested tr then Some (constructed w0) else None) /\
  callbacks s.2
    = callbacks w0 ++ (if requested tr then own_callback f0 (constructed w0) else []) /\
  registered s.2
    = (registered w0
       + (if requested tr && bool_decide (is_Some (requestQps f0)) then 1 else 0))%nat /\
  (forall h, poll h s.2
             = observe h s.2
                 (callbacks w0
                  ++ (if requested tr then own_callback f0 (constructed w0) else []))).
Proof.
  intros f0 s.
  destruct (new_frame r metrics options w0) as (Hq & (_ & _ & Hheap & Hcb) & _ & _).
  assert (settled f0 (new r metrics options w0).2 false (new r metrics options w0))
    as Hs0.
  { unfold settled. by rewrite app_nil_r. }
  apply (run_settled _ _ tr) in Hs0. cbn [orb] in Hs0.
  destruct Hs0 as (_ & Hlen & Hqc & Hcbs).
  fold s in Hlen, Hqc, Hcbs. rewrite Hheap in Hlen, Hqc, Hcbs.
  assert (callbacks (new r metrics options w0).2 = callbacks w0) as Hcb0.
  { unfold callbacks, is_addCallback. exact Hcb. }
  rewrite Hcb0 in Hcbs. unfold constructed.
  split; [done|]. split; [done|]. split; [done|]. split.
  - unfold registered. rewrite Hcbs, length_app. f_equal.
    unfold own_callback. destruct (requested tr); [|done].
    by destruct (requestQps f0).
  - intros h. unfold poll. rewrite observe_callbacks. by fold (callbacks s.2); rewrite Hcbs.
Qed.

(** C6 as stated fails on a facade that got no qps handle: its
    QpsCounter is constructed once, and no callback is ever registered. *)
Lemma callback_not_registered_without_handle :
  (let s := run (new Provider headless None (empty_world 0))
              [Request None; Request None] in
   constructed s.2 = 1%nat /\ registered s.2 = 0%nat /\ backend s.2 = []) /\
  (let s := run (new Consumer (with_meter barren_meter) None (empty_world 0))
              [Request None; Request None] in
   constructed s.2 = 1%nat /\ registered s.2 = 0%nat).
Proof. by vm_compute. Qed.

(** *** A facade without a backend *)

Lemma call_keeps_meter (c : Call) (s : t * World) :
  MeterCollector.meter (super (call c s).2.1) = MeterCollector.meter (super s.1).
Proof.
  destruct s as [f w]. destruct c as [a|a|a| |ms|l]; cbn [call].
  - destruct (qpsCounter f) as [l|] eqn:Hq.
    + by rewrite (request_later _ _ _ _ Hq).
    + by rewrite (request_first _ _ _ Hq).
  - by rewrite requestSucceed_eq.
  - by rewrite requestFailed_eq.
  - rewrite facade_shutdown_eq, base_shutdown_eq. done.
  - done.
  - unfold fire. unfold_monad. cbn.
    destruct (heap w !! l); [|done]. by case_bool_decide.
Qed.

Lemma call_without_handles (c : Call) (s : t * World) :
  handles s.1 = no_handles ->
  handles (call c s).2.1 = no_handles /\ backend (call c s).2.2 = backend s.2.
Proof.
  destruct s as [f w]. intros Hh. cbn [fst snd] in *.
  assert (requestTotal f = None /\ requestSucceedTotal f = None /\
          requestFailedTotal f = None /\ requestQps f = None) as (H1 & H2 & H3 & H4).
  { by injection Hh. }
  destruct c as [a|a|a| |ms|l]; cbn [call].
  - destruct (qpsCounter f) as [l|] eqn:Hq.
    + rewrite (request_later _ _ _ _ Hq), H1. done.
    + rewrite (request_first _ _ _ Hq), H1, H4. cbn [fst snd]. split; [|done].
      unfold handles. cbn. by rewrite H2, H3.
  - rewrite requestSucceed_eq, H2. done.
  - rewrite requestFailed_eq, H3. done.
  - rewrite facade_shutdown_eq. cbn [fst snd]. split; [done|].
    by destruct (qpsCounter f ≫= _).
  - done.
  - unfold fire. unfold_monad. cbn.
    destruct (heap w !! l); [|done]. by case_bool_decide.
Qed.

Lemma run_without_handles (tr : list Call) (s : t * World) :
  handles s.1 = no_handles ->
  handles (run s tr).1 = no_handles /\ backend (run s tr).2 = backend s.2 /\
  MeterCollector.meter (super (run s tr).1) = MeterCollector.meter (super s.1).
Proof.
  revert s. induction tr as [|c tr IH]; intros s Hs; [done|].
  destruct (call_without_handles c s Hs) as [H1 H2].
  destruct (IH _ H1) as (I1 & I2 & I3).
  change (run s (c :: tr)) with (run (call c s).2 tr).
  split; [done|]. split; [congruence|].
  rewrite I3. apply call_keeps_meter.
Qed.

(** C2 as the code has it.  With no meter bound, the getters return
    [undefined] and change nothing, the constructor gets no handle, and
    no event method ever reaches the backend; the succeed and failed
    methods change nothing at all.  The request method leaves the
    collector part, the handles and the backend as they are. *)
Theorem headless_facade_reaches_no_backend
    (r : Role) (metrics : Metrics) (options : option MeterCollectorOptions)
    (w0 : World) (tr : list Call) (a : option Attributes) :
  MeterCollector.meter (MeterCollector.new metrics options) = None ->
  let s0 := new r metrics options w0 in
  let s := run s0 tr in
  (forall n o,
     MeterCollector.getCounter n o (super s.1, s.2) = (None, (super s.1, s.2)) /\
     MeterCollector.getObservableCounter n o (super s.1, s.2)
     = (None, (super s.1, s.2))) /\
  s0.2 = w0 /\ handles s0.1 = no_handles /\
  requestSucceed a s = (tt, s) /\
  requestFailed a s = (tt, s) /\
  backend s.2 = backend w0 /\
  backend (request a s).2.2 = backend w0 /\
  super (request a s).2.1 = super s.1 /\
  handles (request a s).2.1 = no_handles.
Proof.
  intros Hm s0 s.
  destruct (new_frame r metrics options w0) as (_ & _ & _ & Hnew).
  specialize (Hnew Hm). fold s0 in Hnew.
  assert (handles s0.1 = no_handles) as Hh0 by (by rewrite Hnew).
  destruct (run_without_handles tr s0 Hh0) as (Hh & Hb & Hmt). fold s in Hh, Hb, Hmt.
  assert (MeterCollector.meter (super s.1) = None) as Hnone.
  { rewrite Hmt, Hnew. exact Hm. }
  assert (backend s.2 = backend w0) as Hbw by (by rewrite Hb, Hnew).
  destruct (call_without_handles (Request a) s Hh) as [Hr1 Hr2]. cbn [call] in *.
  assert (requestSucceedTotal s.1 = None /\ requestFailedTotal s.1 = None) as [H2 H3].
  { by injection Hh. }
  split; [|split; [by rewrite Hnew|split; [done|]]].
  { intros n o. split; apply cached_unbound; by left. }
  destruct s as [f w]. cbn [fst snd] in *.
  split; [by rewrite requestSucceed_eq, H2|].
  split; [by rewrite requestFailed_eq, H3|].
  split; [done|]. split; [congruence|]. split; [|done].
  destruct (qpsCounter f) as [l|] eqn:Hq.
  - by rewrite (request_later _ _ _ _ Hq).
  - by rewrite (request_first _ _ _ Hq).
Qed.

Lemma headless_facade_reaches_no_backend_witness :
  let s0 := new Provider headless None (empty_world 1500) in
  let s := run s0 [Request None; Advance 1000; RequestSucceed None; Shutdown] in
  requestSucceed None s = (tt, s) /\ requestFailed None s = (tt, s) /\
  backend (request None s).2.2 = [].
Proof.
  intros s0 s.
  destruct (headless_facade_reaches_no_backend Provider headless None (empty_world 1500)
              [Request None; Advance 1000; RequestSucceed None; Shutdown] None eq_refl)
    as (_ & _ & _ & H1 & H2 & _ & H3 & _).
  split; [exact H1|split; [exact H2|exact H3]].
Defined.

(** C2 as stated fails for the request method: on a facade without a
    backend the first [providerRequest()] constructs the QpsCounter,
    which sets its interval, stores it in the facade and counts the
    request. *)
Lemma headless_request_changes_state :
  let s := new Provider headless None (empty_world 1500) in
  let s' := (ProviderMeterCollector.providerRequest None s).2 in
  constructed s.2 = 0%nat /\ qpsCounter s.1 = None /\
  constructed s'.2 = 1%nat /\ qpsCounter s'.1 = Some 0%nat /\
  active (timers s'.2) = {[ 0%nat ]} /\
  (QpsCounter.counter <$> heap s'.2 !! 0%nat) = Some {[ 1 := 1 ]} /\
  s' <> s.
Proof.
  vm_compute. repeat split; done.
Qed.

End FacadeFacts.

(** ** Facts about the SDK options *)

Section ObservableFacts.
Import Observable.

Lemma foldl_insert_lookup (l : list (string * JsValue)) (target : JsObject) (k : string) :
  NoDup l.*1 ->
  foldl (fun o kv => <[kv.1 := kv.2]> o) target l !! k =
  match (list_to_map l : JsObject) !! k with
  | Some v => Some v
  | None => target !! k
  end.
Proof.
  revert target. induction l as [|[k0 v0] l IH]; intros target Hnd; [done|].
  rewrite fmap_cons in Hnd. apply NoDup_cons in Hnd as [Hk0 Hnd]. cbn [fst] in Hk0.
  cbn [foldl fst snd]. rewrite IH by done. rewrite list_to_map_cons.
  destruct (decide (k = k0)) as [->|Hne].
  - assert ((list_to_map l : JsObject) !! k0 = None) as ->
      by (by apply not_elem_of_list_to_map_1).
    by rewrite !lookup_insert_eq.
  - by rewrite !lookup_insert_ne.
Qed.

Lemma spread_lookup (src : option JsObject) (target : JsObject) (k : string) :
  spread src target !! k =
  match src ≫= (fun props => props !! k) with
  | Some v => Some v
  | None => target !! k
  end.
Proof.
  destruct src as [props|]; cbn; [|done].
  rewrite foldl_insert_lookup by apply NoDup_fst_map_to_list.
  by rewrite list_to_map_to_list.
Qed.

(** What [validateOpenTelemetryOption] returns: every entry of the
    caller's configuration as it is, and ["Dubbo"] as the service name
    when the configuration has no [serviceName] entry. *)
Lemma validate_lookup (options : option ObservableOptions) (k : string) :
  validateOpenTelemetryOption options !! k =
  match (options ≫= configuration) ≫= (fun props => props !! k) with
  | Some v => Some v
  | None => if decide (k = "serviceName") then Some (Str "Dubbo") else None
  end.
Proof.
  unfold validateOpenTelemetryOption. rewrite spread_lookup.
  destruct ((options ≫= configuration) ≫= _) as [v|] eqn:Hv; [done|].
  case_decide as Hk.
  - subst k. rewrite lookup_singleton_eq. f_equal.
    unfold read. destruct (options ≫= configuration) as [props|]; cbn in *; [|done].
    by rewrite Hv.
  - by rewrite lookup_singleton_ne.
Qed.

(** C9, where the code goes wrong.  A caller whose configuration holds
    [serviceName: undefined] supplies no service name, and the
    [?? "Dubbo"] of the first entry does compute ["Dubbo"]; the spread
    that follows writes the caller's [undefined] over it, so the
    resulting service name is [undefined]. *)
Theorem undefined_service_name_overrides_default :
  let options := Some {| enable := None;
                         configuration := Some {[ "serviceName" := Undefined ]} |} in
  nullish_or (read (options ≫= configuration) "serviceName") (Str "Dubbo") = Str "Dubbo" /\
  validateOpenTelemetryOption options = {[ "serviceName" := Undefined ]} /\
  serviceName (validateOpenTelemetryOption options) = Undefined /\
  serviceName (validateOpenTelemetryOption options) <> Str "Dubbo".
Proof. vm_compute. repeat split; done. Qed.

Example validate_none :
  validateOpenTelemetryOption None = {[ "serviceName" := Str "Dubbo" ]}.
Proof. by vm_compute. Qed.

Example validate_named :
  serviceName (validateOpenTelemetryOption
    (Some {| enable := Some true;
             configuration := Some {[ "serviceName" := Str "orders";
                                      "autoDetectResources" := Bool false ]} |}))
  = Str "orders".
Proof. by vm_compute. Qed.

End ObservableFacts.

(** ** More about the QPS counter *)

Section QpsCounterHistory.
Import QpsCounter.

#[local] Arguments sweep : simpl never.
#[local] Arguments increment : simpl never.

Lemma run_bucket_history (tr : list Event) (m : Machine) (k : Z) :
  monotone tr -> second (run m tr) <= k + 5 ->
  bucket (run m tr) k = bucket m k + increments_in k m tr.
Proof.
  revert m. induction tr as [|e tr IH]; intros m Htr Hk; [cbn; lia|].
  inversion Htr as [|?? He Htr']; subst. rewrite run_cons in *.
  pose proof (run_second_mono tr (step m e) Htr') as H2.
  rewrite IH by done. rewrite step_bucket by lia.
  cbn [increments_in]. lia.
Qed.

(** X1.  Whatever a QpsCounter has been through since its construction
    (calls, sweeps, [stop()], a clock that does not go back),
    [getQps()] returns exactly the number of [increment()] calls that
    were made during the second before the current one. *)
Theorem getQps_counts_previous_second (t0 : Z) (ts : Timers) (tr : list Event) :
  monotone tr ->
  qps (run (init t0 ts) tr)
  = increments_in (second (run (init t0 ts) tr) - 1) (init t0 ts) tr.
Proof.
  intros Htr. rewrite qps_bucket, run_bucket_history by (done || lia).
  unfold bucket. by rewrite init_counter, lookup_empty.
Qed.

Lemma getQps_counts_previous_second_witness :
  qps (run (init 9200 no_timers)
         [Increment; Advance 900; Increment; Increment; Fire; Advance 950; Increment;
          Stop; Advance 100; GetQps])
  = 2.
Proof.
  rewrite getQps_counts_previous_second by (repeat constructor; cbn; lia).
  vm_compute. reflexivity.
Defined.

(** *** The sweep *)

Lemma t_eq (a b : t) : counter a = counter b -> intervalId a = intervalId b -> a = b.
Proof. destruct a, b; cbn; by intros -> ->. Qed.

Lemma sweep_intervalId (now : Z) (o : t) : intervalId (sweep now o) = intervalId o.
Proof. done. Qed.

(** X2.  A sweep does not change what [getQps()] reports, at the time of
    the sweep or at any time whose second is at most four seconds
    earlier, and so at any later time. *)
Theorem sweep_keeps_getQps (t1 t2 : Z) (o : t) :
  currentSecond t1 - 4 <= currentSecond t2 ->
  getQps t2 (sweep t1 o) = getQps t2 o.
Proof.
  intros Ht. rewrite !getQps_bucket, sweep_lookup.
  by rewrite bool_decide_eq_false_2 by lia.
Qed.

Lemma sweep_keeps_getQps_witness :
  let o := this (run (init 3000 no_timers) [Increment; Advance 6000; Increment; Increment]) in
  getQps 10000 (sweep 9999 o) = 2 /\ counter (sweep 9999 o) !! 3 = None.
Proof.
  intros o. split; [|by vm_compute].
  rewrite sweep_keeps_getQps by (vm_compute; congruence). by vm_compute.
Defined.

(** X3.  Sweeps only remove buckets and compose: a sweep repeated at the
    same time changes nothing more, two sweeps commute, and a sweep
    followed by a later one is the later one alone. *)
Theorem sweep_composes (t1 t2 : Z) (o : t) :
  counter (sweep t1 o) ⊆ counter o /\
  sweep t1 (sweep t1 o) = sweep t1 o /\
  sweep t1 (sweep t2 o) = sweep t2 (sweep t1 o) /\
  (currentSecond t1 <= currentSecond t2 -> sweep t2 (sweep t1 o) = sweep t2 o).
Proof.
  split; [|split; [|split]].
  - apply map_subseteq_spec. intros k v. rewrite sweep_lookup.
    by case_bool_decide.
  - apply t_eq; [|done]. apply map_eq. intros k. rewrite !sweep_lookup.
    by case_bool_decide.
  - apply t_eq; [|done]. apply map_eq. intros k. rewrite !sweep_lookup.
    by repeat case_bool_decide.
  - intros Hle. apply t_eq; [|done]. apply map_eq. intros k. rewrite !sweep_lookup.
    repeat case_bool_decide; try done. lia.
Qed.

Lemma sweep_composes_witness :
  let o := this (run (init 3000 no_timers) [Increment; Advance 6000; Increment]) in
  sweep 15000 (sweep 9000 o) = sweep 15000 o.
Proof.
  intros o. destruct (sweep_composes 9000 15000 o) as (_ & _ & _ & H).
  apply H. vm_compute. congruence.
Defined.

Lemma size_keys_in_window (c : gmap Z Z) (lo : Z) (n : nat) :
  (forall k, is_Some (c !! k) -> lo <= k < lo + Z.of_nat n) ->
  (size c <= n)%nat.
Proof.
  intros Hwin. rewrite <- size_dom.
  assert (dom c ⊆ (list_to_set (seqZ lo (Z.of_nat n)) : gset Z)) as Hsub.
  { intros k Hk. apply elem_of_dom in Hk. apply Hwin in Hk.
    apply elem_of_list_to_set, elem_of_seqZ. lia. }
  apply subseteq_size in Hsub.
  rewrite size_list_to_set in Hsub by apply NoDup_seqZ.
  rewrite length_seqZ in Hsub. lia.
Qed.

(** X4.  With a clock that does not go back, right after a sweep the
    counter holds at most six buckets, however many events were
    recorded before. *)
Theorem at_most_six_buckets_after_sweep (t0 : Z) (ts : Timers) (pre : list Event) :
  monotone pre ->
  intervalId (this (run (init t0 ts) pre)) ∈ active (timers (run (init t0 ts) pre)) ->
  (size (counter (this (step (run (init t0 ts) pre) Fire))) <= 6)%nat.
Proof.
  intros Hpre Hact.
  set (m1 := run (init t0 ts) pre) in *.
  assert (keys_upto_now m1) as Hup.
  { apply run_keys_upto_now; [done|apply init_keys_upto_now]. }
  apply (size_keys_in_window _ (second m1 - 5) 6).
  intros k. cbn. rewrite bool_decide_eq_true_2 by done. cbn.
  rewrite sweep_lookup. case_bool_decide; [by intros [? [=]]|].
  intros Hk. apply Hup in Hk. unfold second in *. lia.
Qed.

Lemma at_most_six_buckets_after_sweep_witness :
  let pre := mjoin (replicate 9 [Increment; Advance 1000]) in
  size (counter (this (run (init 0 no_timers) pre))) = 9%nat /\
  (size (counter (this (step (run (init 0 no_timers) pre) Fire))) <= 6)%nat.
Proof.
  intros pre. split; [by vm_compute|].
  apply at_most_six_buckets_after_sweep.
  - unfold pre. cbn. repeat constructor; cbn; lia.
  - apply (bool_decide_unpack _). vm_compute. exact I.
Defined.

(** *** After [stop()] *)

Lemma increment_intervalId (now : Z) (o : t) :
  intervalId (increment now o) = intervalId o.
Proof.
  unfold increment. destruct (counter o !! currentSecond now) as [v|]; [|done].
  by destruct (truthy v).
Qed.

Lemma step_stopped (m : Machine) (e : Event) :
  intervalId (this m) ∉ active (timers m) ->
  (intervalId (this (step m e)) ∉ active (timers (step m e))) /\
  forall k, bucket (step m e) k
            = bucket m k + (if is_increment e && bool_decide (k = second m) then 1 else 0).
Proof.
  intros Hoff. destruct e; cbn [step is_increment andb].
  - split; [exact Hoff|]. intros k. unfold bucket. cbn. lia.
  - rewrite bool_decide_eq_false_2 by done. split; [exact Hoff|]. intros k. lia.
  - split; [cbn; by rewrite increment_intervalId|].
    intros k. unfold bucket, second. cbn. rewrite increment_lookup.
    case_decide as Hk.
    + subst k. rewrite bool_decide_eq_true_2 by done. cbn. lia.
    + rewrite bool_decide_eq_false_2 by done. cbn. lia.
  - split; [exact Hoff|]. intros k. lia.
  - split; [|intros k; unfold bucket; cbn; lia].
    unfold stop, clearInterval. cbn. rewrite elem_of_difference. tauto.
Qed.

Lemma run_stopped (tr : list Event) (m : Machine) (k : Z) :
  intervalId (this m) ∉ active (timers m) ->
  bucket (run m tr) k = bucket m k + increments_in k m tr.
Proof.
  revert m. induction tr as [|e tr IH]; intros m Hoff; [cbn; lia|].
  destruct (step_stopped m e Hoff) as [Hoff' Hb].
  rewrite run_cons, IH by done. rewrite Hb. cbn [increments_in]. lia.
Qed.

Lemma increments_in_nonneg (k : Z) (tr : list Event) (m : Machine) :
  0 <= increments_in k m tr.
Proof.
  revert m. induction tr as [|e tr IH]; intros m; cbn [increments_in]; [lia|].
  specialize (IH (step m e)).
  destruct (is_increment e && bool_decide (k = second m)); lia.
Qed.

(** X5.  After [stop()] the sweep never runs again, whatever the clock
    does: no bucket is ever deleted, every [increment()] is still
    recorded, so the bucket of every second holds what it held at
    [stop()] plus the increments made in that second since. *)
Theorem stopped_counter_keeps_every_bucket (m : Machine) (tr : list Event) (k : Z) :
  let m' := step m Stop in
  bucket (run m' tr) k = bucket m' k + increments_in k m' tr /\
  (is_Some (counter (this m') !! k) -> is_Some (counter (this (run m' tr)) !! k)) /\
  fired_at m' tr = [].
Proof.
  intros m'.
  assert (intervalId (this m') ∉ active (timers m')) as Hoff.
  { unfold m'. cbn. unfold stop, clearInterval. cbn.
    rewrite elem_of_difference, elem_of_singleton. tauto. }
  split; [by apply run_stopped|split].
  - intros Hk. revert Hoff Hk. generalize m'. clear m m'.
    induction tr as [|e tr IH]; intros m Hoff Hk; [done|].
    rewrite run_cons. destruct (step_stopped m e Hoff) as [Hoff' _].
    apply IH; [done|]. destruct e; cbn; try done.
    + by rewrite bool_decide_eq_false_2 by done.
    + rewrite increment_lookup. by case_decide.
  - revert Hoff. generalize m'. clear m m'.
    induction tr as [|e tr IH]; intros m Hoff; [done|].
    destruct (step_stopped m e Hoff) as [Hoff' _].
    cbn [fired_at]. destruct e; try (by apply IH).
    rewrite bool_decide_eq_false_2 by done. by apply IH.
Qed.

(** X6.  [currentSecond()] is the floor of the time in seconds, also
    before the epoch; it never decreases when the clock moves forward,
    and 1000 ms later it is exactly one more. *)
Theorem currentSecond_is_floor (now d : Z) :
  1000 * currentSecond now <= now < 1000 * currentSecond now + 1000 /\
  currentSecond (now + 1000) = currentSecond now + 1 /\
  (0 <= d -> currentSecond now <= currentSecond (now + d)) /\
  currentSecond (-1) = -1.
Proof.
  unfold currentSecond. repeat split.
  - apply Z.mul_div_le. lia.
  - pose proof (Z.mul_succ_div_gt now 1000). lia.
  - replace (now + 1000) with (now + 1 * 1000) by lia. rewrite Z.div_add by lia. lia.
  - intros Hd. apply Z.div_le_mono; lia.
Qed.

End QpsCounterHistory.

(** ** More about the meter collector *)

Section MeterCollectorMore.
Import MeterCollector.

(** X7.  The constructor asks the global API for the meter named by the
    options; a name or version that is [undefined] or the empty string
    falls back to ["dubbo-js"] and ["0.0.1"], and the cache starts
    empty. *)
Theorem collector_defaults (metrics : Metrics) (n v : string) :
  new metrics None
    = new metrics (Some {| name := Some "dubbo-js"; version := Some "0.0.1" |}) /\
  new metrics (Some {| name := Some ""; version := Some "" |}) = new metrics None /\
  new metrics (Some {| name := None; version := None |}) = new metrics None /\
  (n <> "" -> v <> "" ->
   new metrics (Some {| name := Some n; version := Some v |})
   = {| meter := metrics n v; meter_cache := Some ∅ |}) /\
  (n <> "" ->
   new metrics (Some {| name := Some n; version := Some "" |})
   = {| meter := metrics n "0.0.1"; meter_cache := Some ∅ |}).
Proof.
  repeat split; try done.
  - intros Hn Hv. unfold new. cbn. by destruct n, v.
  - intros Hn. unfold new. cbn. by destruct n.
Qed.

Lemma get_keeps_cache_present (g : Get) (s : t * World) :
  is_Some (meter_cache s.1) -> is_Some (meter_cache (get g s).2.1).
Proof.
  destruct s as [this w]. cbn [fst snd]. intros [cache Hc].
  destruct (meter this) as [mt|] eqn:Hm.
  2:{ destruct (get_frame g (this, w)) as (_ & _ & Hn). cbn in Hn.
      rewrite (Hn Hm). cbn. by rewrite Hc. }
  destruct g as [n o|n o]; cbn [get].
  - destruct (cache !! ("counter-" +:+ n)) as [h|] eqn:Hk.
    + unfold getCounter. rewrite (cached_hit _ _ _ _ mt cache h) by done.
      cbn. by rewrite Hc.
    + rewrite (getCounter_miss _ _ _ _ mt cache) by done.
      destruct (createCounter mt (backend w) n o); cbn; [done|by rewrite Hc].
  - destruct (cache !! ("observable-counter-" +:+ n)) as [h|] eqn:Hk.
    + unfold getObservableCounter. rewrite (cached_hit _ _ _ _ mt cache h) by done.
      cbn. by rewrite Hc.
    + rewrite (getObservableCounter_miss _ _ _ _ mt cache) by done.
      destruct (createObservableCounter mt (backend w) n o); cbn; [done|by rewrite Hc].
Qed.

Lemma gets_keep_collector (gs : list Get) (s : t * World) :
  is_Some (meter_cache s.1) ->
  is_Some (meter_cache (gets s gs).1) /\ meter (gets s gs).1 = meter s.1.
Proof.
  revert s. induction gs as [|g gs IH]; intros s Hs; [done|].
  change (gets s (g :: gs)) with (gets (get g s).2 gs).
  destruct (IH (get g s).2 (get_keeps_cache_present g s Hs)) as [H1 H2].
  split; [done|]. rewrite H2. by destruct (get_frame g s) as (_ & ? & _).
Qed.

(** X8.  [shutdown()] brings a collector back to the state its
    constructor left it in, whatever handles were requested in between:
    the meter stays bound and the cache is empty again. *)
Theorem shutdown_restores_initial_collector
    (metrics : Metrics) (options : option MeterCollectorOptions) (w : World)
    (gs : list Get) :
  (shutdown (gets (new metrics options, w) gs)).2.1 = new metrics options /\
  (shutdown (gets (new metrics options, w) gs)).2.2 = (gets (new metrics options, w) gs).2.
Proof.
  destruct (gets_keep_collector gs (new metrics options, w)) as [[cache Hc] Hm];
    [by eexists|].
  destruct (gets (new metrics options, w) gs) as [this w'] eqn:Hg. cbn [fst snd] in *.
  rewrite base_shutdown_eq. cbn [fst snd]. split; [|done].
  rewrite Hc, Hm. done.
Qed.

(** X9.  A counter and an observable counter of the same name are cached
    apart.  With the counter [n] cached and no observable counter [n]
    cached, [getObservableCounter(n)] does not return the counter's
    handle: it asks the backend and returns its answer; the counter's
    entry is untouched and is returned by the next [getCounter(n)]. *)
Theorem kinds_are_cached_apart
    (this : t) (w : World) (mt : Meter) (cache : gmap string Handle)
    (n : string) (o o' : option MetricOptions) (h : Handle) :
  meter this = Some mt -> meter_cache this = Some cache ->
  cache !! ("counter-" +:+ n) = Some h ->
  cache !! ("observable-counter-" +:+ n) = None ->
  let r := getObservableCounter n o (this, w) in
  r.1 = createObservableCounter mt (backend w) n o /\
  backend r.2.2 = backend w ++ [CreateObservableCounter n o] /\
  getCounter n o' r.2 = (Some h, r.2).
Proof.
  intros Hm Hc Hk Hk' r.
  assert (cached ("counter-" +:+ n) h (this, w)) as Hcached by (by exists mt, cache).
  destruct (get_keeps_cached _ h (GetObservableCounter n o) _ Hcached) as (Hkeep & _ & _).
  cbn [get] in Hkeep. fold r in Hkeep.
  split; [|split].
  - unfold r. rewrite (getObservableCounter_miss _ _ _ _ mt cache) by done.
    by destruct (createObservableCounter mt (backend w) n o).
  - unfold r. rewrite (getObservableCounter_miss _ _ _ _ mt cache) by done.
    by destruct (createObservableCounter mt (backend w) n o).
  - by apply cached_get_again.
Qed.

Lemma kinds_are_cached_apart_witness :
  let s := (getCounter "x" None (new (with_meter fresh_meter) None, empty_world 0)).2 in
  let r := getObservableCounter "x" None s in
  r.1 = Some 1%nat /\ getCounter "x" None r.2 = (Some 0%nat, r.2).
Proof.
  intros s r.
  assert (meter s.1 = Some fresh_meter) as Hm by (vm_compute; reflexivity).
  assert (meter_cache s.1 = Some {[ "counter-x" := 0%nat ]}) as Hc
    by (vm_compute; reflexivity).
  assert (({[ "counter-x" := 0%nat ]} : gmap string Handle) !! ("counter-" +:+ "x")
          = Some 0%nat) as Hk by (vm_compute; reflexivity).
  assert (({[ "counter-x" := 0%nat ]} : gmap string Handle)
            !! ("observable-counter-" +:+ "x") = None) as Hk'
    by (vm_compute; reflexivity).
  assert (createObservableCounter fresh_meter (backend s.2) "x" None = Some 1%nat) as Ha
    by (vm_compute; reflexivity).
  subst r. clearbody s. destruct s as [this w]. cbn [fst snd] in *.
  destruct (kinds_are_cached_apart this w fresh_meter _ "x" None None 0%nat Hm Hc Hk Hk')
    as (H1 & _ & H3).
  split; [by rewrite H1|exact H3].
Defined.

(** A getter call whose key is not cached, on a collector with a meter. *)
Lemma get_miss (g : Get) (s : t * World) (mt : Meter) (cache : gmap string Handle) :
  meter s.1 = Some mt -> meter_cache s.1 = Some cache -> cache !! key_of g = None ->
  exists cache',
    get g s = (answer mt (backend s.2) (call_of g),
               ({| meter := Some mt; meter_cache := Some cache' |},
                told (call_of g) s.2)) /\
    dom cache' ⊆ {[ key_of g ]} ∪ dom cache.
Proof.
  destruct s as [this w]. cbn [fst snd]. intros Hm Hc Hk.
  destruct g as [n o|n o]; cbn [get key_of call_of answer] in *.
  - rewrite (getCounter_miss _ _ _ _ mt cache) by done.
    destruct (createCounter mt (backend w) n o) as [h|].
    + exists (<[("counter-" +:+ n) := h]> cache). rewrite Hm. split; [done|].
      by rewrite dom_insert_L.
    + exists cache. split; [by destruct this; cbn in *; subst|].
      apply union_subseteq_r.
  - rewrite (getObservableCounter_miss _ _ _ _ mt cache) by done.
    destruct (createObservableCounter mt (backend w) n o) as [h|].
    + exists (<[("observable-counter-" +:+ n) := h]> cache). rewrite Hm. split; [done|].
      by rewrite dom_insert_L.
    + exists cache. split; [by destruct this; cbn in *; subst|].
      apply union_subseteq_r.
Qed.

End MeterCollectorMore.

(** ** More about the facades *)

Section FacadeMore.
Import Facade.

Lemma not_cached_outside (cache : gmap string Handle) (ks : gset string) (k : string) :
  dom cache ⊆ ks -> k ∉ ks -> cache !! k = None.
Proof. intros Hsub Hk. apply not_elem_of_dom. intros Hin. by apply Hk, Hsub. Qed.

Ltac fresh_key r :=
  eapply not_cached_outside; [eassumption|];
  rewrite ?dom_empty_L, ?elem_of_union, ?elem_of_singleton, ?elem_of_empty;
  destruct r; cbn; intuition discriminate.

Ltac miss_counter c Hdom :=
  let Heq := fresh "Heq" in
  match goal with
  | |- context [MeterCollector.getCounter ?n ?o (?c0, ?w)] =>
      destruct (get_miss (MeterCollector.GetCounter n o) (c0, w) _ _ eq_refl eq_refl)
        as (c & Heq & Hdom);
      [cbn [key_of]
      |cbn [MeterCollector.get fst snd key_of call_of] in Heq, Hdom;
       rewrite Heq; clear Heq]
  end.

Ltac miss_observable c Hdom :=
  let Heq := fresh "Heq" in
  match goal with
  | |- context [MeterCollector.getObservableCounter ?n ?o (?c0, ?w)] =>
      destruct (get_miss (MeterCollector.GetObservableCounter n o) (c0, w) _ _
                  eq_refl eq_refl)
        as (c & Heq & Hdom);
      [cbn [key_of]
      |cbn [MeterCollector.get fst snd key_of call_of] in Heq, Hdom;
       rewrite Heq; clear Heq]
  end.

(** X10.  With a meter bound, the constructor of a facade makes exactly
    four create calls, for the three counters and then the observable
    counter of its role, all of value type INT, and keeps the backend's
    four answers as its handles, whether or not each call yields one;
    it constructs no QpsCounter and sets no timer. *)
Theorem constructor_registers_four_metrics
    (r : Role) (metrics : Metrics) (options : option MeterCollectorOptions)
    (mt : Meter) (w0 : World) :
  MeterCollector.meter (MeterCollector.new metrics options) = Some mt ->
  let res := new r metrics options w0 in
  backend res.2 = backend w0 ++ registrations r /\
  handles res.1 = answers mt (backend w0) (registrations r) /\
  qpsCounter res.1 = None /\
  heap res.2 = heap w0 /\ timers res.2 = timers w0 /\ now res.2 = now w0.
Proof.
  intros Hm res. unfold res, new. unfold_monad.
  assert (MeterCollector.new metrics options
          = {| MeterCollector.meter := Some mt; MeterCollector.meter_cache := Some ∅ |})
    as -> by (unfold MeterCollector.new in *; cbn in *; by rewrite Hm).
  miss_counter cache1 Hdom1; [apply lookup_empty|].
  miss_counter cache2 Hdom2; [fresh_key r|].
  assert (dom cache2 ⊆ {["counter-" +:+ requests_succeed_total r]}
            ∪ ({["counter-" +:+ requests_total r]} ∪ dom (∅ : gmap string Handle)))
    as Hdom2' by (etrans; [exact Hdom2|by apply union_mono_l]).
  clear Hdom1 Hdom2.
  miss_counter cache3 Hdom3; [fresh_key r|].
  assert (dom cache3 ⊆ {["counter-" +:+ requests_failed_total r]}
            ∪ ({["counter-" +:+ requests_succeed_total r]}
               ∪ ({["counter-" +:+ requests_total r]} ∪ dom (∅ : gmap string Handle))))
    as Hdom3' by (etrans; [exact Hdom3|by apply union_mono_l]).
  clear Hdom2' Hdom3.
  miss_observable cache4 Hdom4; [fresh_key r|].
  cbn [fst snd handles requestTotal requestSucceedTotal requestFailedTotal requestQps
       qpsCounter].
  unfold told. cbn [backend_call snd backend heap timers now].
  unfold registrations. cbn [answers]. rewrite <- !app_assoc. done.
Qed.

Lemma constructor_registers_four_metrics_witness :
  let res := new Consumer (with_meter flaky_meter) None (empty_world 0) in
  backend res.2 = registrations Consumer /\
  handles res.1 = [None; Some 1%nat; Some 2%nat; Some 3%nat].
Proof.
  intros res.
  destruct (constructor_registers_four_metrics Consumer (with_meter flaky_meter) None
              flaky_meter (empty_world 0) eq_refl) as (H1 & H2 & _).
  split; [exact H1|exact H2].
Defined.

(** *** Events reach the backend *)

Lemma adds_told_on (h : option Handle) (mk : Handle -> BackendCall) (w : World) :
  adds (told_on h mk w)
  = adds w ++ match h with
              | Some h' => if is_add (mk h') then [mk h'] else []
              | None => []
              end.
Proof.
  destruct h as [h'|]; cbn [told_on]; [|by rewrite app_nil_r].
  unfold adds, told. cbn. rewrite filter_app, filter_cons, filter_nil.
  destruct (is_add (mk h')); by case_decide.
Qed.

Lemma call_adds (c : Call) (s : t * World) :
  adds (call c s).2.2 = adds s.2 ++ forwarded s.1 c /\
  handles (call c s).2.1 = handles s.1.
Proof.
  destruct s as [f w]. cbn [fst snd].
  destruct c as [a|a|a| |ms|l]; cbn [call forwarded].
  - destruct (qpsCounter f) as [l|] eqn:Hq.
    + rewrite (request_later _ _ _ _ Hq). cbn [fst snd]. split; [|done].
      change (adds (qps_increment l ?w').2) with (adds w').
      rewrite adds_told_on. by destruct (requestTotal f).
    + rewrite (request_first _ _ _ Hq). cbn [fst snd]. split; [|done].
      change (adds (qps_increment ?l' ?w').2) with (adds w').
      rewrite adds_told_on.
      change (adds (new_QpsCounter ?w').2) with (adds w').
      rewrite adds_told_on.
      destruct (requestTotal f), (requestQps f); cbn; by rewrite ?app_nil_r.
  - rewrite requestSucceed_eq. cbn [fst snd]. split; [|done].
    rewrite adds_told_on. by destruct (requestSucceedTotal f).
  - rewrite requestFailed_eq. cbn [fst snd]. split; [|done].
    rewrite adds_told_on. by destruct (requestFailedTotal f).
  - rewrite facade_shutdown_eq. cbn [fst snd]. rewrite app_nil_r. split; [|done].
    by destruct (qpsCounter f ≫= _).
  - by rewrite app_nil_r.
  - rewrite app_nil_r. unfold fire. unfold_monad. cbn.
    destruct (heap w !! l); [|done]. by case_bool_decide.
Qed.

Lemma forwarded_handles (f f' : t) (c : Call) :
  handles f = handles f' -> forwarded f c = forwarded f' c.
Proof. intros [= H1 H2 H3 H4]. destruct c; cbn; congruence. Qed.

(** X11.  Every call of an event method reaches the backend as one
    [add(1, attributes)] on the handle the constructor took for it, in
    the order of the calls and with the attributes as given; an event
    whose handle is absent sends nothing.  This holds along any
    sequence of calls, also after [shutdown()], which does not release
    the handles. *)
Theorem events_are_forwarded_in_order (s : t * World) (tr : list Call) :
  adds (run s tr).2 = adds s.2 ++ mjoin (forwarded s.1 <$> tr) /\
  handles (run s tr).1 = handles s.1.
Proof.
  revert s. induction tr as [|c tr IH]; intros s.
  - cbn. by rewrite app_nil_r.
  - change (run s (c :: tr)) with (run (call c s).2 tr).
    destruct (IH (call c s).2) as [I1 I2]. destruct (call_adds c s) as [C1 C2].
    split; [|congruence].
    rewrite I1, C1, <- app_assoc. f_equal. rewrite fmap_cons. cbn [mjoin list_join].
    f_equal. f_equal. apply list_fmap_ext. intros ???. by apply forwarded_handles.
Qed.

(** *** The counter behind a facade *)

Lemma machine_at_spec (l : Loc) (w : World) (m : QpsCounter.Machine) :
  machine_at l w = Some m <->
  heap w !! l = Some (QpsCounter.this m) /\ QpsCounter.clock m = now w /\
  QpsCounter.timers m = timers w.
Proof.
  unfold machine_at. destruct (heap w !! l) as [c|]; cbn.
  - split.
    + by intros [= <-].
    + destruct m as [cl ts c']. cbn. by intros ([= ->] & -> & ->).
  - split; [done|]. by intros [? _].
Qed.

Lemma call_machine (l : Loc) (c : Call) (s : t * World) (m : QpsCounter.Machine) :
  qpsCounter s.1 = Some l -> machine_at l s.2 = Some m ->
  qpsCounter (call c s).2.1 = Some l /\
  machine_at l (call c s).2.2 = Some (QpsCounter.run m (counter_event l c)).
Proof.
  destruct s as [f w]. cbn [fst snd]. intros Hq Hm.
  apply machine_at_spec in Hm as (Hc & Hclock & Htimers).
  destruct m as [cl ts c0]. cbn in Hc, Hclock, Htimers. subst cl ts.
  destruct c as [a|a|a| |ms|l']; cbn [call counter_event].
  - rewrite (request_later _ _ _ _ Hq). cbn [fst snd]. split; [done|].
    apply machine_at_spec.
    destruct (requestTotal f); cbn; rewrite list_lookup_alter_eq;
      unfold Loc in *; by rewrite Hc.
  - rewrite requestSucceed_eq. cbn [fst snd]. split; [done|].
    apply machine_at_spec. by destruct (requestSucceedTotal f).
  - rewrite requestFailed_eq. cbn [fst snd]. split; [done|].
    apply machine_at_spec. by destruct (requestFailedTotal f).
  - rewrite facade_shutdown_eq. cbn [fst snd]. split; [done|].
    rewrite Hq. cbn. rewrite Hc. by apply machine_at_spec.
  - split; [done|]. by apply machine_at_spec.
  - assert (in_world (fire l') (f, w) = (tt, (f, (fire l' w).2))) as ->.
    { unfold in_world. cbn. by destruct (fire l' w) as [[] ?]. }
    cbn [fst snd]. split; [done|]. apply machine_at_spec. unfold fire.
    unfold Loc in *.
    destruct (decide (l' = l)) as [->|Hne].
    + rewrite bool_decide_eq_true_2 by done. rewrite Hc. cbn.
      case_bool_decide; cbn; [|done].
      split; [|done]. apply list_lookup_insert_eq. by eapply lookup_lt_Some.
    + rewrite bool_decide_eq_false_2 by done. cbn.
      destruct (heap w !! l') as [c'|]; [|done].
      case_bool_decide; cbn; [|done].
      by rewrite list_lookup_insert_ne.
Qed.

(** X12.  The QpsCounter a facade owns lives the life of a QpsCounter of
    its own: along any sequence of calls it is in the state reached by
    one [increment()] per request event, [stop()] per [shutdown()], the
    same clock, and the sweeps of its own interval; the succeed and
    failed events and the intervals of other counters do not touch it.
    What the facade's callback observes is [getQps()] of that state. *)
Theorem facade_counter_is_a_QpsCounter
    (s : t * World) (l : Loc) (m : QpsCounter.Machine) (tr : list Call) :
  qpsCounter s.1 = Some l -> machine_at l s.2 = Some m ->
  qpsCounter (run s tr).1 = Some l /\
  machine_at l (run s tr).2
    = Some (QpsCounter.run m (mjoin (counter_event l <$> tr))) /\
  QpsCounter.getQps (now (run s tr).2) <$> heap (run s tr).2 !! l
    = Some (QpsCounter.qps (QpsCounter.run m (mjoin (counter_event l <$> tr)))).
Proof.
  intros Hq Hm.
  assert (qpsCounter (run s tr).1 = Some l /\
          machine_at l (run s tr).2
          = Some (QpsCounter.run m (mjoin (counter_event l <$> tr)))) as [H1 H2].
  { revert s m Hq Hm. induction tr as [|c tr IH]; intros s m Hq Hm; [done|].
    change (run s (c :: tr)) with (run (call c s).2 tr).
    destruct (call_machine l c s m Hq Hm) as [Hq' Hm'].
    destruct (IH _ _ Hq' Hm') as [I1 I2]. split; [done|].
    rewrite I2, fmap_cons. cbn [mjoin list_join]. by rewrite run_app. }
  split; [done|split; [done|]].
  apply machine_at_spec in H2 as (-> & Hclock & _).
  cbn. unfold QpsCounter.qps. by rewrite Hclock.
Qed.

Lemma facade_counter_is_a_QpsCounter_witness :
  let s := run (new Provider (with_meter fresh_meter) None (empty_world 1500))
             [Request None] in
  let tr := [Request None; RequestSucceed None; Advance 1000; Fire 0%nat; Shutdown] in
  QpsCounter.getQps (now (run s tr).2) <$> heap (run s tr).2 !! 0%nat = Some 2.
Proof.
  intros s tr.
  assert (qpsCounter s.1 = Some 0%nat) as Hq by (vm_compute; reflexivity).
  assert (machine_at 0%nat s.2
          = Some {| QpsCounter.clock := 1500;
                    QpsCounter.timers := {| active := {[ 0%nat ]}; next_id := 1%nat |};
                    QpsCounter.this := {| QpsCounter.counter := {[ 1 := 1 ]};
                                          QpsCounter.intervalId := 0%nat |} |}) as Hm
    by (vm_compute; reflexivity).
  clearbody s.
  destruct (facade_counter_is_a_QpsCounter s 0%nat _ tr Hq Hm) as (_ & _ & H).
  etrans; [exact H|]. vm_compute. reflexivity.
Defined.

(** *** What a poll reports *)

Lemma call_now (c : Call) (s : t * World) :
  now (call c s).2.2 = now s.2 + elapsed c.
Proof.
  destruct s as [f w]. destruct c as [a|a|a| |ms|l]; cbn [call elapsed fst snd].
  - destruct (qpsCounter f) as [l|] eqn:Hq.
    + rewrite (request_later _ _ _ _ Hq). cbn. destruct (requestTotal f); cbn; lia.
    + rewrite (request_first _ _ _ Hq). cbn.
      destruct (requestTotal f), (requestQps f); cbn; lia.
  - rewrite requestSucceed_eq. cbn. destruct (requestSucceedTotal f); cbn; lia.
  - rewrite requestFailed_eq. cbn. destruct (requestFailedTotal f); cbn; lia.
  - rewrite facade_shutdown_eq. cbn [fst snd].
    destruct (qpsCounter f ≫= _); cbn; lia.
  - done.
  - unfold fire, in_world. cbn. destruct (heap w !! l); [|cbn; lia].
    case_bool_decide; cbn; lia.
Qed.

(** The world after the request method. *)
Lemma request_first_world (a : option Attributes) (f : t) (w : World) :
  qpsCounter f = None ->
  heap (request a (f, w)).2.2
    = heap w ++ [QpsCounter.increment (now w)
                   {| QpsCounter.counter := ∅;
                      QpsCounter.intervalId := next_id (timers w) |}] /\
  timers (request a (f, w)).2.2 = (setInterval (timers w)).2.
Proof.
  intros Hq. rewrite (request_first _ _ _ Hq). cbn [fst snd].
  destruct (requestTotal f), (requestQps f); cbn;
    (split; [|done]);
    rewrite alter_app_r_alt by done; by rewrite Nat.sub_diag.
Qed.

Lemma request_later_world (a : option Attributes) (f : t) (w : World) (l : Loc) :
  qpsCounter f = Some l ->
  heap (request a (f, w)).2.2 = alter (QpsCounter.increment (now w)) l (heap w) /\
  timers (request a (f, w)).2.2 = timers w.
Proof.
  intros Hq. rewrite (request_later _ _ _ _ Hq). cbn [fst snd].
  by destruct (requestTotal f).
Qed.

Lemma recorded_eq (s : t * World) (k : Z) (l : Loc) (c : QpsCounter.t) :
  qpsCounter s.1 = Some l -> heap s.2 !! l = Some c ->
  recorded s k = default 0 (QpsCounter.counter c !! k).
Proof. unfold recorded. intros -> Hc. cbn. unfold Loc in *. by rewrite Hc. Qed.

Lemma recorded_none (s : t * World) (k : Z) :
  qpsCounter s.1 = None -> recorded s k = 0.
Proof. unfold recorded. by intros ->. Qed.

Lemma call_recorded (c : Call) (s : t * World) (k : Z) :
  owns_counter s ->
  QpsCounter.currentSecond (now s.2) <= k + 5 ->
  owns_counter (call c s).2 /\
  recorded (call c s).2 k
  = recorded s k
    + (if is_request c && bool_decide (k = QpsCounter.currentSecond (now s.2))
       then 1 else 0).
Proof.
  destruct s as [f w]. unfold owns_counter. cbn [fst snd]. intros Hown Hk.
  destruct (qpsCounter f) as [l|] eqn:Hq.
  - (* the facade has its counter *)
    destruct (lookup_lt_is_Some_2 _ _ Hown) as [c0 Hc0].
    rewrite (recorded_eq (f, w) k l c0) by done.
    destruct c as [a|a|a| |ms|l']; cbn [call is_request andb].
    + destruct (request_later_world a f w l Hq) as [Hh _].
      pose proof (request_later a f w l Hq) as Heq.
      assert ((request a (f, w)).2.1 = f) as Hf by (by rewrite Heq).
      rewrite Hf, Hq, Hh, length_alter. split; [done|].
      rewrite (recorded_eq _ k l (QpsCounter.increment (now w) c0)).
      2:{ by rewrite Hf. }
      2:{ rewrite Hh, list_lookup_alter_eq. unfold Loc in *. by rewrite Hc0. }
      rewrite increment_lookup. case_decide.
      * subst k. rewrite bool_decide_eq_true_2 by done. cbn. lia.
      * rewrite bool_decide_eq_false_2 by done. lia.
    + rewrite requestSucceed_eq. cbn [fst snd]. rewrite Hq, heap_told_on.
      split; [done|]. rewrite (recorded_eq _ k l c0); [lia|done|].
      cbn [snd]. by rewrite heap_told_on.
    + rewrite requestFailed_eq. cbn [fst snd]. rewrite Hq, heap_told_on.
      split; [done|]. rewrite (recorded_eq _ k l c0); [lia|done|].
      cbn [snd]. by rewrite heap_told_on.
    + assert (qpsCounter (shutdown (f, w)).2.1 = Some l /\
              heap (shutdown (f, w)).2.2 = heap w) as [Hq' Hh].
      { rewrite facade_shutdown_eq. cbn [fst snd]. rewrite Hq. cbn.
        unfold Loc in *. by rewrite Hc0. }
      rewrite Hq', Hh. split; [done|].
      rewrite (recorded_eq _ k l c0); [lia|done|by rewrite Hh].
    + cbn. rewrite Hq. split; [done|].
      rewrite (recorded_eq _ k l c0); [lia|done|done].
    + assert (in_world (fire l') (f, w) = (tt, (f, (fire l' w).2))) as ->.
      { unfold in_world. cbn. by destruct (fire l' w) as [[] ?]. }
      cbn [fst snd]. rewrite Hq. unfold fire. unfold Loc in *.
      destruct (heap w !! l') as [c'|] eqn:Hc'; cbn [snd].
      2:{ split; [done|]. rewrite (recorded_eq _ k l c0); [lia|done|done]. }
      case_bool_decide; cbn [snd heap].
      2:{ split; [done|]. rewrite (recorded_eq _ k l c0); [lia|done|done]. }
      rewrite length_insert. split; [done|].
      destruct (decide (l' = l)) as [->|Hne].
      * rewrite (recorded_eq _ k l (QpsCounter.sweep (now w) c0)); [|done|].
        2:{ cbn. rewrite list_lookup_insert_eq by done. congruence. }
        rewrite sweep_lookup. rewrite bool_decide_eq_false_2 by lia. lia.
      * rewrite (recorded_eq _ k l c0); [lia|done|].
        cbn. by rewrite list_lookup_insert_ne.
  - (* no counter yet *)
    rewrite (recorded_none (f, w)) by done.
    destruct c as [a|a|a| |ms|l']; cbn [call is_request andb].
    + destruct (request_first_world a f w Hq) as [Hh _].
      pose proof (request_first a f w Hq) as Heq.
      assert (qpsCounter (request a (f, w)).2.1 = Some (length (heap w))) as Hq'
        by (by rewrite Heq).
      rewrite Hq', Hh, length_app. cbn [length]. split; [lia|].
      rewrite (recorded_eq _ k (length (heap w))
                 (QpsCounter.increment (now w)
                    {| QpsCounter.counter := ∅;
                       QpsCounter.intervalId := next_id (timers w) |})); [|done|].
      2:{ rewrite Hh. rewrite lookup_app_r by done. by rewrite Nat.sub_diag. }
      rewrite increment_lookup. cbn [QpsCounter.counter]. rewrite !lookup_empty.
      case_decide.
      * subst k. rewrite bool_decide_eq_true_2 by done. cbn. lia.
      * rewrite bool_decide_eq_false_2 by done. cbn. lia.
    + rewrite requestSucceed_eq. cbn [fst snd]. rewrite Hq. split; [done|].
      rewrite recorded_none; [lia|done].
    + rewrite requestFailed_eq. cbn [fst snd]. rewrite Hq. split; [done|].
      rewrite recorded_none; [lia|done].
    + assert (qpsCounter (shutdown (f, w)).2.1 = None) as Hq'.
      { rewrite facade_shutdown_eq. cbn. exact Hq. }
      rewrite Hq'. split; [done|]. rewrite recorded_none; [lia|done].
    + cbn. rewrite Hq. split; [done|]. rewrite recorded_none; [lia|done].
    + assert (in_world (fire l') (f, w) = (tt, (f, (fire l' w).2))) as ->.
      { unfold in_world. cbn. by destruct (fire l' w) as [[] ?]. }
      cbn [fst snd]. rewrite Hq. split; [done|]. rewrite recorded_none; [lia|done].
Qed.

Lemma run_now_mono (tr : list Call) (s : t * World) :
  Forall forward_call tr -> now s.2 <= now (run s tr).2.
Proof.
  revert s. induction tr as [|c tr IH]; intros s Htr; [done|].
  inversion Htr as [|?? Hc Htr']; subst.
  change (run s (c :: tr)) with (run (call c s).2 tr).
  etrans; [|by apply IH]. rewrite call_now. unfold forward_call in Hc. lia.
Qed.

Lemma run_recorded (tr : list Call) (s : t * World) (k : Z) :
  owns_counter s -> Forall forward_call tr ->
  QpsCounter.currentSecond (now (run s tr).2) <= k + 5 ->
  owns_counter (run s tr) /\
  recorded (run s tr) k = recorded s k + requests_in k (now s.2) tr.
Proof.
  revert s. induction tr as [|c tr IH]; intros s Hown Htr Hk.
  - cbn. split; [done|lia].
  - inversion Htr as [|?? Hc Htr']; subst.
    change (run s (c :: tr)) with (run (call c s).2 tr) in *.
    pose proof (run_now_mono tr (call c s).2 Htr') as Hmono.
    rewrite call_now in Hmono. unfold forward_call in Hc.
    assert (QpsCounter.currentSecond (now s.2) <= k + 5) as Hk0.
    { etrans; [|exact Hk]. apply currentSecond_mono. lia. }
    destruct (call_recorded c s k Hown Hk0) as [Hown' Hrec].
    destruct (IH _ Hown' Htr' Hk) as [I1 I2]. split; [done|].
    rewrite I2, Hrec, call_now. cbn [requests_in]. lia.
Qed.

(** X13.  From construction to poll: on a facade that holds its qps
    handle, built in a world with no other callbacks, once the request
    method has been invoked a poll of the qps observable counter reports
    one value, the number of request events made during the second
    before the current one, whatever else was called meanwhile (the
    clock not going back). *)
Theorem poll_reports_requests_of_previous_second
    (r : Role) (metrics : Metrics) (options : option MeterCollectorOptions)
    (t0 : Z) (tr : list Call) (h : Handle) :
  requestQps (new r metrics options (empty_world t0)).1 = Some h ->
  Forall forward_call tr -> requested tr = true ->
  poll h (run (new r metrics options (empty_world t0)) tr).2
  = [requests_in
       (QpsCounter.currentSecond
          (now (run (new r metrics options (empty_world t0)) tr).2) - 1)
       t0 tr].
Proof.
  intros Hh Htr Hreq.
  destruct (new_frame r metrics options (empty_world t0))
    as (Hq0 & (Hnow & _ & Hheap & Hcb) & _ & _).
  set (s0 := new r metrics options (empty_world t0)) in *.
  assert (settled s0.1 s0.2 false s0) as Hs0.
  { unfold settled. by rewrite app_nil_r. }
  apply (run_settled _ _ tr) in Hs0. cbn [orb] in Hs0. rewrite Hreq in Hs0.
  destruct Hs0 as (_ & _ & Hqc & Hcbs).
  rewrite Hheap in Hqc, Hcbs. cbn [empty_world heap length] in Hqc, Hcbs.
  assert (callbacks s0.2 = []) as Hcb0.
  { unfold callbacks, is_addCallback. rewrite Hcb. done. }
  rewrite Hcb0 in Hcbs. unfold own_callback in Hcbs. rewrite Hh in Hcbs.
  cbn [app] in Hcbs.
  set (s := run s0 tr) in *.
  set (k := QpsCounter.currentSecond (now s.2) - 1).
  assert (owns_counter s0) as Hown0 by (unfold owns_counter; by rewrite Hq0).
  destruct (run_recorded tr s0 k Hown0 Htr) as [Hown Hrec]; [fold s; unfold k; lia|].
  fold s in Hown, Hrec. rewrite Hnow in Hrec. cbn [empty_world now] in Hrec.
  rewrite (recorded_none s0) in Hrec by done.
  unfold owns_counter in Hown. rewrite Hqc in Hown.
  destruct (lookup_lt_is_Some_2 _ _ Hown) as [c Hc].
  rewrite (recorded_eq s k 0%nat c) in Hrec by done.
  unfold poll. rewrite observe_callbacks. fold (callbacks s.2). rewrite Hcbs.
  unfold observe. cbn. rewrite bool_decide_eq_true_2 by done.
  unfold Loc in *. rewrite Hc. cbn. rewrite getQps_bucket. fold k.
  rewrite Hrec. f_equal; lia.
Qed.

Lemma poll_reports_requests_of_previous_second_witness :
  poll 3%nat
    (run (new Provider (with_meter fresh_meter) None (empty_world 1500))
       [RequestFailed None; Advance 600; Request None; Request None; Shutdown;
        Request None; Advance 1000; Request None; Fire 0%nat]).2
  = [3].
Proof.
  etrans.
  - apply (poll_reports_requests_of_previous_second Provider (with_meter fresh_meter)
             None 1500 _ 3%nat).
    + vm_compute. reflexivity.
    + repeat constructor; unfold forward_call; cbn; lia.
    + reflexivity.
  - vm_compute. reflexivity.
Defined.

(** *** Facades side by side *)

Lemma intervals_distinct_update (w w' : World) (l0 : Loc) (g : QpsCounter.t -> QpsCounter.t) :
  (forall c, heap w !! l0 = Some c ->
     QpsCounter.intervalId (g c) = QpsCounter.intervalId c) ->
  heap w' = alter g l0 (heap w) -> next_id (timers w') = next_id (timers w) ->
  intervals_distinct w -> intervals_distinct w'.
Proof.
  intros Hg Hh Hn [Hlt Hinj].
  assert (forall l c, heap w' !! l = Some c ->
            exists c0, heap w !! l = Some c0 /\
                       QpsCounter.intervalId c = QpsCounter.intervalId c0) as Hback.
  { intros l c. rewrite Hh. destruct (decide (l0 = l)) as [->|Hne].
    - rewrite list_lookup_alter_eq.
      destruct (heap w !! l) as [c0|] eqn:Hc0; cbn; [|done].
      intros [= <-]. exists c0. by rewrite Hg.
    - rewrite list_lookup_alter_ne by done. intros Hc. by exists c. }
  split.
  - intros l c Hc. destruct (Hback l c Hc) as (c0 & Hc0 & ->). rewrite Hn. by eapply Hlt.
  - intros l1 l2 c1 c2 H1 H2 Heq.
    destruct (Hback l1 c1 H1) as (d1 & Hd1 & E1).
    destruct (Hback l2 c2 H2) as (d2 & Hd2 & E2).
    eapply Hinj; [done|done|congruence].
Qed.

Lemma alter_as_insert (l0 : nat) (c0 : QpsCounter.t) (heap0 : list QpsCounter.t)
    (g : QpsCounter.t -> QpsCounter.t) :
  heap0 !! l0 = Some c0 -> <[l0 := g c0]> heap0 = alter (fun _ => g c0) l0 heap0.
Proof.
  intros Hc. apply list_eq. intros i.
  destruct (decide (i = l0)) as [->|Hne].
  - rewrite list_lookup_insert_eq by (by eapply lookup_lt_Some).
    by rewrite list_lookup_alter_eq, Hc.
  - by rewrite list_lookup_insert_ne, list_lookup_alter_ne.
Qed.

Lemma empty_world_intervals_distinct (t0 : Z) : intervals_distinct (empty_world t0).
Proof. split; intros ??; cbn; by rewrite ?lookup_nil. Qed.

Lemma new_intervals_distinct
    (r : Role) (metrics : Metrics) (options : option MeterCollectorOptions) (w : World) :
  intervals_distinct w -> intervals_distinct (new r metrics options w).2.
Proof.
  destruct (new_frame r metrics options w) as (_ & (_ & Ht & Hh & _) & _).
  intros [Hlt Hinj]. split.
  - intros l c0. rewrite Hh, Ht. apply Hlt.
  - intros l1 l2 c1 c2. rewrite Hh. apply Hinj.
Qed.

Lemma call_intervals_distinct (c : Call) (s : t * World) :
  intervals_distinct s.2 -> intervals_distinct (call c s).2.2.
Proof.
  destruct s as [f w0]. cbn [fst snd]. intros Hw.
  destruct c as [a|a|a| |ms|l']; cbn [call].
  - destruct (qpsCounter f) as [l|] eqn:Hq.
    + destruct (request_later_world a f w0 l Hq) as [Hh Ht].
      eapply intervals_distinct_update; [|exact Hh|by rewrite Ht|done].
      intros ? _. apply increment_intervalId.
    + destruct (request_first_world a f w0 Hq) as [Hh Ht].
      destruct Hw as [Hlt Hinj].
      assert (forall l c0, heap (request a (f, w0)).2.2 !! l = Some c0 ->
                (heap w0 !! l = Some c0 /\ (l < length (heap w0))%nat) \/
                (l = length (heap w0) /\
                 QpsCounter.intervalId c0 = next_id (timers w0))) as Hcase.
      { intros l c0. rewrite Hh. intros Hl.
        apply lookup_app_Some in Hl as [Hl|[Hge Hl]].
        - left. split; [done|by eapply lookup_lt_Some].
        - right. destruct (l - length (heap w0))%nat as [|n] eqn:Hd; [|done].
          cbn in Hl. injection Hl as <-. rewrite increment_intervalId. cbn.
          split; [lia|done]. }
      split.
      * intros l c0 Hc0. rewrite Ht. cbn.
        destruct (Hcase l c0 Hc0) as [[Hold _]|[_ ->]]; [|lia].
        apply Hlt in Hold. lia.
      * intros l1 l2 c1 c2 H1 H2 Heq.
        destruct (Hcase l1 c1 H1) as [[O1 L1]|[-> E1]];
          destruct (Hcase l2 c2 H2) as [[O2 L2]|[-> E2]]; try done.
        -- by eapply Hinj.
        -- apply Hlt in O1. lia.
        -- apply Hlt in O2. lia.
  - rewrite requestSucceed_eq. cbn [fst snd].
    by destruct (requestSucceedTotal f).
  - rewrite requestFailed_eq. cbn [fst snd].
    by destruct (requestFailedTotal f).
  - rewrite facade_shutdown_eq. cbn [fst snd].
    by destruct (qpsCounter f ≫= _).
  - done.
  - unfold fire, in_world. cbn.
    destruct (heap w0 !! l') as [c'|] eqn:Hc'; [|done].
    case_bool_decide; [|done]. cbn.
    eapply (intervals_distinct_update w0 _ l' (fun _ => QpsCounter.sweep (now w0) c'));
      [| |reflexivity|done].
    + unfold Loc in *. intros c0. rewrite Hc'. by intros [= <-].
    + cbn. by apply alter_as_insert.
Qed.

(** X14.  Interval ids are never shared: in the empty world, and after
    any construction of a facade and any call on any facade (or sweep,
    or clock movement), every QpsCounter of the heap has an interval id
    of its own. *)
Theorem counters_never_share_an_interval
    (t0 : Z) (r : Role) (metrics : Metrics) (options : option MeterCollectorOptions)
    (w : World) (c : Call) (s : t * World) :
  intervals_distinct (empty_world t0) /\
  (intervals_distinct w -> intervals_distinct (new r metrics options w).2) /\
  (intervals_distinct s.2 -> intervals_distinct (call c s).2.2).
Proof.
  split; [apply empty_world_intervals_distinct|split].
  - apply new_intervals_distinct.
  - apply call_intervals_distinct.
Qed.

(** X15.  The methods of one facade leave the QpsCounter of another
    alone: a counter that is not the facade's own keeps its buckets
    through every event method and through [shutdown()], and its
    interval stays set. *)
Theorem facade_leaves_other_counters
    (s : t * World) (c : Call) (l' : Loc) (c' : QpsCounter.t) :
  intervals_distinct s.2 -> qpsCounter s.1 <> Some l' ->
  heap s.2 !! l' = Some c' -> is_method c = true ->
  heap (call c s).2.2 !! l' = Some c' /\
  (QpsCounter.intervalId c' ∈ active (timers s.2) ->
   QpsCounter.intervalId c' ∈ active (timers (call c s).2.2)).
Proof.
  destruct s as [f w]. cbn [fst snd]. intros [_ Hinj] Hnot Hc' Hmeth.
  unfold Loc in *.
  destruct c as [a|a|a| |ms|l0]; cbn [call is_method] in *; try done.
  - destruct (qpsCounter f) as [l|] eqn:Hq.
    + destruct (request_later_world a f w l Hq) as [-> ->]. split; [|done].
      rewrite list_lookup_alter_ne; [done|by intros ->].
    + destruct (request_first_world a f w Hq) as [-> ->]. split.
      * rewrite lookup_app_l; [done|by eapply lookup_lt_Some].
      * cbn. rewrite elem_of_union. by right.
  - rewrite requestSucceed_eq. cbn [fst snd]. by destruct (requestSucceedTotal f).
  - rewrite requestFailed_eq. cbn [fst snd]. by destruct (requestFailedTotal f).
  - rewrite facade_shutdown_eq. cbn [fst snd].
    destruct (qpsCounter f) as [l|] eqn:Hq; cbn; [|done].
    destruct (heap w !! l) as [c0|] eqn:Hc0; cbn; [|done].
    split; [done|]. intros Hact. unfold QpsCounter.stop, clearInterval. cbn.
    rewrite elem_of_difference, elem_of_singleton. split; [done|].
    intros Heq. apply Hnot. f_equal. by eapply Hinj.
Qed.

Lemma facade_leaves_other_counters_witness :
  let a := new Provider (with_meter fresh_meter) None (empty_world 1500) in
  let b := new Consumer (with_meter fresh_meter) None a.2 in
  let a1 := (call (Request None) (a.1, b.2)).2 in
  let b1 := (call (Request None) (b.1, a1.2)).2 in
  let a2 := (call Shutdown (a1.1, b1.2)).2 in
  qpsCounter a1.1 = Some 0%nat /\ qpsCounter b1.1 = Some 1%nat /\
  heap a2.2 !! 1%nat = heap b1.2 !! 1%nat /\
  active (timers a2.2) = {[ 1%nat ]}.
Proof.
  intros a b a1 b1 a2.
  assert (qpsCounter a1.1 = Some 0%nat) as Ha by (vm_compute; reflexivity).
  assert (qpsCounter b1.1 = Some 1%nat) as Hb by (vm_compute; reflexivity).
  assert (heap b1.2
          = [ {| QpsCounter.counter := {[ 1 := 1 ]}; QpsCounter.intervalId := 0%nat |};
              {| QpsCounter.counter := {[ 1 := 1 ]}; QpsCounter.intervalId := 1%nat |} ])
    as Hheap by (vm_compute; reflexivity).
  assert (next_id (timers b1.2) = 2%nat) as Hnext by (vm_compute; reflexivity).
  assert (active (timers a2.2) = {[ 1%nat ]}) as Hact by (vm_compute; reflexivity).
  split; [exact Ha|split; [exact Hb|split; [|exact Hact]]].
  clear Hact. subst a2. clearbody a1 b1. clear a b.
  destruct a1 as [fa wa]. destruct b1 as [fb wb]. cbn [fst snd] in *.
  assert (intervals_distinct wb) as Hd.
  { unfold intervals_distinct. rewrite Hheap, Hnext.
    split.
    - intros [|[|l]] c; cbn; try done; intros [= <-]; cbn; lia.
    - intros [|[|l1]] [|[|l2]] c1 c2; cbn; try done;
        intros [= <-] [= <-]; cbn; done. }
  assert (heap wb !! 1%nat
          = Some {| QpsCounter.counter := {[ 1 := 1 ]};
                    QpsCounter.intervalId := 1%nat |}) as Hc by (by rewrite Hheap).
  assert (qpsCounter fa <> Some 1%nat) as Hne by (rewrite Ha; discriminate).
  destruct (facade_leaves_other_counters (fa, wb) Shutdown 1%nat _ Hd Hne Hc eq_refl)
    as [Hkeep _].
  exact (eq_trans Hkeep (eq_sym Hc)).
Defined.

(** X18.  [shutdown()] is not final.  On a facade that has had no
    request yet, a request made after [shutdown()] constructs the
    QpsCounter all the same, and its interval is set and stays set
    until [shutdown()] is called again. *)
Theorem request_after_shutdown_starts_counter
    (f : t) (w : World) (a : option Attributes) :
  qpsCounter f = None ->
  let s' := (request a (shutdown (f, w)).2).2 in
  qpsCounter s'.1 = Some (length (heap w)) /\
  heap s'.2 !! length (heap w)
    = Some (QpsCounter.increment (now w)
              {| QpsCounter.counter := ∅;
                 QpsCounter.intervalId := next_id (timers w) |}) /\
  next_id (timers w) ∈ active (timers s'.2).
Proof.
  intros Hq s'. unfold s'. rewrite facade_shutdown_eq. cbn [fst snd]. rewrite Hq.
  cbn [mbind option_bind].
  set (f' := set_super _ f).
  assert (qpsCounter f' = None) as Hq' by done.
  destruct (request_first_world a f' w Hq') as [Hh Ht].
  rewrite (request_first a f' w Hq') at 1. cbn [fst snd qpsCounter].
  split; [done|]. rewrite Hh, Ht. split.
  - rewrite lookup_app_r by done. by rewrite Nat.sub_diag.
  - cbn. rewrite elem_of_union, elem_of_singleton. by left.
Qed.

Lemma request_after_shutdown_starts_counter_witness :
  let s := new Provider (with_meter fresh_meter) None (empty_world 1500) in
  let s' := (request None (shutdown s).2).2 in
  qpsCounter s'.1 = Some 0%nat /\ (0%nat ∈ active (timers s'.2)).
Proof.
  intros s s'.
  assert (qpsCounter s.1 = None) as Hq by (vm_compute; reflexivity).
  assert (length (heap s.2) = 0%nat) as Hl by (vm_compute; reflexivity).
  assert (next_id (timers s.2) = 0%nat) as Hn by (vm_compute; reflexivity).
  subst s'. clearbody s. destruct s as [f w]. cbn [fst snd] in *.
  destruct (request_after_shutdown_starts_counter f w None Hq) as (H1 & _ & H3).
  rewrite Hl in H1. rewrite Hn in H3. split; [exact H1|exact H3].
Defined.

End FacadeMore.

(** ** More about the SDK options *)

Section ObservableMore.
Import Observable.

(** X16.  [validateOpenTelemetryOption] passes every entry of the
    caller's configuration through unchanged, the [serviceName] entry
    included whatever it holds, and adds [serviceName: "Dubbo"] exactly
    when the configuration has no [serviceName] entry (or there is no
    configuration, or no options); the [enable] option plays no part. *)
Theorem validate_passes_configuration_through
    (options : option ObservableOptions) (k : string) (v : JsValue) (e : option bool) :
  ((options ≫= configuration) ≫= (fun props => props !! k) = Some v ->
     validateOpenTelemetryOption options !! k = Some v) /\
  ((options ≫= configuration) ≫= (fun props => props !! k) = None ->
     validateOpenTelemetryOption options !! k
     = if decide (k = "serviceName") then Some (Str "Dubbo") else None) /\
  dom (validateOpenTelemetryOption options)
    = {[ "serviceName" ]} ∪ default ∅ (dom <$> (options ≫= configuration)) /\
  validateOpenTelemetryOption
    (Some {| enable := e; configuration := options ≫= configuration |})
  = validateOpenTelemetryOption options.
Proof.
  split; [|split; [|split]].
  - intros Hk. by rewrite validate_lookup, Hk.
  - intros Hk. by rewrite validate_lookup, Hk.
  - apply set_eq. intros x. rewrite elem_of_dom, validate_lookup, elem_of_union,
      elem_of_singleton.
    destruct (options ≫= configuration) as [props|]; cbn.
    + rewrite elem_of_dom. destruct (props !! x) as [y|]; cbn.
      * split; intros _; [right|]; by eexists.
      * case_decide as Hx.
        -- split; [by left|intros _; by eexists].
        -- split; [by intros [? [=]]|intros [?|[? [=]]]; done].
    + rewrite elem_of_empty. case_decide as Hx.
      * split; [by left|intros _; by eexists].
      * split; [by intros [? [=]]|by intros [?|[]]].
  - done.
Qed.

Lemma validate_passes_configuration_through_witness :
  let options :=
    Some {| enable := Some true;
            configuration := Some {[ "serviceName" := Str "orders";
                                     "autoDetectResources" := Bool false ]} |} in
  validateOpenTelemetryOption options !! "serviceName" = Some (Str "orders") /\
  validateOpenTelemetryOption options !! "autoDetectResources" = Some (Bool false) /\
  validateOpenTelemetryOption options !! "traceExporter" = None.
Proof.
  intros options.
  destruct (validate_passes_configuration_through options "serviceName" (Str "orders") None)
    as (H1 & _ & _ & _).
  destruct (validate_passes_configuration_through options "autoDetectResources"
              (Bool false) None) as (H2 & _ & _ & _).
  destruct (validate_passes_configuration_through options "traceExporter" Undefined None)
    as (_ & H3 & _ & _).
  split; [apply H1; by vm_compute|split; [apply H2; by vm_compute|]].
  rewrite H3 by (by vm_compute). done.
Defined.

(** X17.  Validating is idempotent: a configuration that went through
    [validateOpenTelemetryOption] comes out of it unchanged. *)
Theorem validate_idempotent (options : option ObservableOptions) (e : option bool) :
  validateOpenTelemetryOption
    (Some {| enable := e;
             configuration := Some (validateOpenTelemetryOption options) |})
  = validateOpenTelemetryOption options.
Proof.
  apply map_eq. intros k. rewrite (validate_lookup (Some _)). cbn.
  destruct (validateOpenTelemetryOption options !! k) as [v|] eqn:Hk; [done|].
  case_decide; [|done]. subst k.
  rewrite validate_lookup in Hk.
  destruct ((options ≫= configuration) ≫= _); [done|].
  by rewrite decide_True in Hk.
Qed.

End ObservableMore.

(** ** The examples of the specification and of the tests *)

Example provider_reports_previous_second :
  let s := Facade.run (ProviderMeterCollector.new (with_meter fresh_meter) None (empty_world 1500))
             [Facade.Request None; Facade.Request None; Facade.Advance 1000] in
  Facade.poll 3%nat s.2 = [2] /\ Facade.constructed s.2 = 1%nat /\ Facade.registered s.2 = 1%nat.
Proof. vm_compute. done. Qed.
